(** * GloVe matrix factorisation (trainer/glove.py, trainer/train_estimator.py)

    A shallow embedding of the model function of the GloVe trainer and of
    the TensorFlow operations it calls.

    Conventions.
    - float32 tensors are modelled by exact rationals ([Q]); a rank-1
      tensor is a [list Q], a rank-2 tensor a list of rows.  Equalities
      between computed values are stated up to [Qeq] ([==]).
    - A batch of features is a list of examples, so that all feature
      columns of one batch have the same length, as the input pipeline
      delivers them.
    - A TensorFlow operation that can raise is a function into [result].
    - The values of the trainable variables are passed explicitly
      ([Variables]); the optimizer and the two irrational primitives
      (reciprocal square root, square root) are parameters of the model. *)

From Stdlib Require Import String List ZArith QArith Qminmax Lia Lqa Bool.
From Stdlib Require Import Sorted Permutation FunctionalExtensionality.
Import ListNotations.

Open Scope Q_scope.

(** ** Errors *)

Inductive tf_error : Type :=
| InvalidArgumentError   (* raised by a kernel when the graph is run *)
| ValueError.            (* raised by shape inference when the graph is built *)

Inductive result (A : Type) : Type :=
| Ok (a : A)
| Raise (e : tf_error).

Arguments Ok {A} a.
Arguments Raise {A} e.

Definition bind {A B : Type} (m : result A) (f : A -> result B) : result B :=
  match m with
  | Ok a => f a
  | Raise e => Raise e
  end.

Notation "x <- m ;; k" := (bind m (fun x => k))
  (at level 61, m at next level, right associativity).

Fixpoint mapM {A B : Type} (f : A -> result B) (l : list A) : result (list B) :=
  match l with
  | [] => Ok []
  | x :: l' => y <- f x ;; ys <- mapM f l' ;; Ok (y :: ys)
  end.

Definition is_ok {A : Type} (m : result A) : bool :=
  match m with Ok _ => true | Raise _ => false end.

(** ** TensorFlow operations used by the trainer *)

Module TF.

(** [tf.contrib.lookup.index_table_from_tensor(mapping, default_value)]:
    a token is mapped to its position in [mapping], a token that does not
    occur to [default_value].  The keys must be strings: an empty list
    converts to a tensor of floats and is rejected when the table is
    built. *)
Fixpoint index_of (key : string) (mapping : list string) : option nat :=
  match mapping with
  | [] => None
  | t :: rest =>
      if String.eqb key t then Some 0%nat
      else option_map S (index_of key rest)
  end.

Record index_table : Type := {
  table_keys : list string;
  table_default : Z
}.

Definition index_table_from_tensor (mapping : list string) (default_value : Z)
  : result index_table :=
  match mapping with
  | [] => Raise ValueError
  | _ :: _ => Ok {| table_keys := mapping; table_default := default_value |}
  end.

Definition lookup_one (t : index_table) (key : string) : Z :=
  match index_of key (table_keys t) with
  | Some i => Z.of_nat i
  | None => table_default t
  end.

Definition lookup (t : index_table) (keys : list string) : list Z :=
  map (lookup_one t) keys.

(** [tf.contrib.lookup.index_to_string_table_from_tensor(mapping)]: the
    inverse table, with the library's default value for an index out of
    range. *)
Definition UNK : string := "UNK"%string.

Definition index_to_string (mapping : list string) (idx : Z) : string :=
  if (idx <? 0)%Z then UNK else nth (Z.to_nat idx) mapping UNK.

(** [tf.nn.embedding_lookup(params, ids)]: gather along the first axis; an
    id outside [0, len(params)) is rejected by the kernel. *)
Definition gather {A : Type} (params : list A) (id : Z) : result A :=
  if (id <? 0)%Z then Raise InvalidArgumentError
  else match nth_error params (Z.to_nat id) with
       | Some x => Ok x
       | None => Raise InvalidArgumentError
       end.

Definition embedding_lookup {A : Type} (params : list A) (ids : list Z)
  : result (list A) :=
  mapM (gather params) ids.

(** Elementwise arithmetic on operands of equal shape. *)
Fixpoint map2 {A B C : Type} (f : A -> B -> C) (xs : list A) (ys : list B)
  : list C :=
  match xs, ys with
  | x :: xs', y :: ys' => f x y :: map2 f xs' ys'
  | _, _ => []
  end.

Definition multiply (a b : list (list Q)) : list (list Q) :=
  map2 (map2 Qmult) a b.

Definition sum (v : list Q) : Q := fold_right Qplus 0 v.

(** [tf.reduce_sum(t, 1)] on a rank-2 tensor. *)
Definition reduce_sum_1 (t : list (list Q)) : list Q := map sum t.

(** [tf.add_n] of rank-1 tensors, accumulated from left to right. *)
Definition add_n (ts : list (list Q)) : list Q :=
  match ts with
  | [] => []
  | t :: rest => fold_left (map2 Qplus) rest t
  end.

(** [tf.add] of a scalar and a rank-1 tensor (the scalar is broadcast). *)
Definition add_scalar (s : Q) (t : list Q) : list Q := map (Qplus s) t.

(** [tf.matmul(a, b, transpose_b=True)]. *)
Definition dot (u v : list Q) : Q := sum (map2 Qmult u v).

Definition matmul_transpose_b (a b : list (list Q)) : list (list Q) :=
  map (fun u => map (dot u) b) a.

(** [tf.math.top_k]: the [k] largest entries of every row with their
    indices; of two equal entries the one with the lower index comes
    first.  A negative [k], or a [k] larger than the last dimension, is
    rejected. *)
Definition enumerate (row : list Q) : list (nat * Q) :=
  combine (seq 0 (length row)) row.

Fixpoint insert_desc (x : nat * Q) (l : list (nat * Q)) : list (nat * Q) :=
  match l with
  | [] => [x]
  | y :: l' =>
      if Qle_bool (snd y) (snd x) then x :: l else y :: insert_desc x l'
  end.

Definition sort_desc (l : list (nat * Q)) : list (nat * Q) :=
  fold_right insert_desc [] l.

Definition top_k_row (k : nat) (row : list Q) : list (nat * Q) :=
  firstn k (sort_desc (enumerate row)).

Definition top_k (last_dim : nat) (input : list (list Q)) (k : Z)
  : result (list (list Q) * list (list Z)) :=
  if (k <? 0)%Z then Raise ValueError
  else if (Z.of_nat last_dim <? k)%Z then Raise ValueError
  else
    let selected := map (top_k_row (Z.to_nat k)) input in
    Ok (map (map snd) selected,
        map (map (fun p => Z.of_nat (fst p))) selected).

(** [tf.losses.mean_squared_error(labels, predictions, weights)] with its
    default reduction [SUM_BY_NONZERO_WEIGHTS]: the weighted squared
    differences are summed and divided by the number of non-zero weights;
    the division yields 0 when that number is 0 ([div_no_nan]). *)
Definition squared_difference (x y : Q) : Q := (x - y) * (x - y).

Definition nonzero (w : Q) : bool := negb (Qeq_bool w 0).

Definition num_present (weights : list Q) : Q :=
  inject_Z (Z.of_nat (length (filter nonzero weights))).

Definition div_no_nan (x y : Q) : Q :=
  if Qeq_bool y 0 then 0 else x / y.

Definition weighted_losses (labels predictions weights : list Q) : list Q :=
  map2 Qmult (map2 squared_difference predictions labels) weights.

Definition mean_squared_error (labels predictions weights : list Q) : Q :=
  div_no_nan (sum (weighted_losses labels predictions weights))
             (num_present weights).

(** The regression head of [tf.estimator] ([RegressionHead] with a weight
    column and its default reduction [SUM_OVER_BATCH_SIZE]): the weighted
    squared differences are summed and divided by the batch size. *)
Definition regression_head_loss (labels logits weights : list Q) : Q :=
  div_no_nan (sum (weighted_losses labels logits weights))
             (inject_Z (Z.of_nat (length logits))).

End TF.

(** ** Variable initialisation

    [tf.get_variable(name, shape)] without an initializer uses the
    library's default, [glorot_uniform_initializer]: every entry is drawn
    uniformly from [[-limit, limit]] with
    [limit = sqrt (3 / max 1 ((fan_in + fan_out) / 2))].  The unit samples
    that the random operation of a variable consumes are given by a stream
    [rng name : nat -> Q]; the square root is a parameter. *)

Module Init.

Section Initializers.

Variable sqrt : Q -> Q.
Variable rng : string -> nat -> Q.

Definition compute_fans (shape : list nat) : nat * nat :=
  match rev shape with
  | [] => (1%nat, 1%nat)
  | [n] => (n, n)
  | fan_out :: fan_in :: outer =>
      let receptive_field_size := fold_right Nat.mul 1%nat outer in
      ((fan_in * receptive_field_size)%nat,
       (fan_out * receptive_field_size)%nat)
  end.

Definition glorot_limit (shape : list nat) : Q :=
  let (fan_in, fan_out) := compute_fans shape in
  sqrt (3 / Qmax 1 (inject_Z (Z.of_nat (fan_in + fan_out)) / 2)).

Definition random_uniform (u : nat -> Q) (minval maxval : Q) (i : nat) : Q :=
  minval + u i * (maxval - minval).

Definition glorot_uniform (name : string) (shape : list nat) (i : nat) : Q :=
  let limit := glorot_limit shape in
  random_uniform (rng name) (- limit) limit i.

(** Initial values of [tf.get_variable(name, [])], [tf.get_variable(name,
    [n])] and [tf.get_variable(name, [n, d])]. *)
Definition get_variable_0 (name : string) : Q :=
  glorot_uniform name [] 0%nat.

Definition get_variable_1 (name : string) (n : nat) : list Q :=
  map (glorot_uniform name [n]) (seq 0 n).

Definition get_variable_2 (name : string) (n d : nat) : list (list Q) :=
  map (fun r => map (fun c => glorot_uniform name [n; d] (r * d + c)%nat)
                    (seq 0 d))
      (seq 0 n).

End Initializers.

End Init.

(** ** trainer/glove.py *)

Module Glove.

Import TF.

(** One example of a batch: the columns that [model_fn] reads through
    [field_names]. *)
Record Example : Type := {
  row_token : string;
  column_token : string;
  weight : Q;
  value : Q
}.

Definition Features : Type := list Example.

Inductive ModeKeys : Type := TRAIN | EVAL | PREDICT.

(** The trainable variables of one field, and of the whole model. *)
Record FieldStore : Type := {
  embeddings : list (list Q);     (* [field_dim, embedding_size] *)
  biases : list Q                 (* [field_dim] *)
}.

Record Variables : Type := {
  global_bias : Q;
  row_store : FieldStore;
  column_store : FieldStore
}.

(** The dictionary [field_variables] on entry of [get_field_variables]:
    its name, its vocabulary, and the feature column the name selects. *)
Record Field : Type := {
  name : string;
  mapping : list string;
  column : Example -> string
}.

(** ... after [get_field_variables] ... *)
Record FieldVariables : Type := {
  fv_field : Field;
  fv_embeddings : list (list Q);
  fv_biases : list Q;
  fv_embed : list (list Q);       (* [None, embedding_size] *)
  fv_bias : list Q                (* [None] *)
}.

(** ... and after [get_similarity]. *)
Record FieldSimilarity : Type := {
  fs_variables : FieldVariables;
  embed_norm : list (list Q);
  embeddings_norm : list (list Q);
  top_k_sim : list (list Q);
  top_k_idx : list (list Z);
  top_k_string : list (list string)
}.

Record Predictions : Type := {
  row_embed : list (list Q);
  row_bias : list Q;
  column_embed : list (list Q);
  column_bias : list Q;
  embed_norm_product : list Q;
  top_k_row_similarity : list (list Q);
  top_k_row_string : list (list string);
  top_k_column_similarity : list (list Q);
  top_k_column_string : list (list string)
}.

Record FieldNames : Type := {
  fn_row_id : string;
  fn_column_id : string;
  fn_weight : string;
  fn_value : string
}.

Definition default_field_names : FieldNames :=
  {| fn_row_id := "row_id"; fn_column_id := "column_id";
     fn_weight := "weight"; fn_value := "value" |}.

(** [params]; [mappings_row] and [mappings_column] are
    [mappings[field_names["row_id"]]] and
    [mappings[field_names["column_id"]]]. *)
Record Params : Type := {
  field_names : option FieldNames;
  mappings_row : list string;
  mappings_column : list string;
  embedding_size : option nat;
  optimizer : option string;
  learning_rate : option Q;
  k : option Z
}.

Definition get {A : Type} (o : option A) (default : A) : A :=
  match o with Some a => a | None => default end.

(** An optimizer is used through [minimize] only: from the loss, as a
    function of the variables, to an update of the variables. *)
Definition Optimizer : Type :=
  (Variables -> result Q) -> Variables -> Variables.

Record EstimatorSpec : Type := {
  spec_mode : ModeKeys;
  predictions : option Predictions;
  loss : option Q;
  train_op : option (Variables -> Variables)
}.

Section Model.

(** [tf.math.rsqrt], and [trainer.utils.get_optimizer]. *)
Variable rsqrt : Q -> Q.
Variable get_optimizer : string -> Q -> Optimizer.

Definition epsilon : Q := 1 # 1000000000000.

(** [tf.math.l2_normalize(x, 1)] *)
Definition l2_normalize_row (x : list Q) : list Q :=
  let square_sum := sum (map (fun v => v * v) x) in
  let x_inv_norm := rsqrt (Qmax square_sum epsilon) in
  map (fun v => v * x_inv_norm) x.

Definition l2_normalize (x : list (list Q)) : list (list Q) :=
  map l2_normalize_row x.

Definition get_field_variables (features : Features) (field : Field)
    (store : FieldStore) : result FieldVariables :=
  field_id_lookup <- index_table_from_tensor (mapping field) 0 ;;
  let field_embeddings := embeddings store in
  let field_biases := biases store in
  let field_id := lookup field_id_lookup (map (column field) features) in
  field_embed <- embedding_lookup field_embeddings field_id ;;
  field_bias <- embedding_lookup field_biases field_id ;;
  Ok {| fv_field := field;
        fv_embeddings := field_embeddings;
        fv_biases := field_biases;
        fv_embed := field_embed;
        fv_bias := field_bias |}.

Definition get_similarity (field_variables : FieldVariables) (k : Z)
  : result FieldSimilarity :=
  let field_embed_norm := l2_normalize (fv_embed field_variables) in
  let field_embeddings_norm := l2_normalize (fv_embeddings field_variables) in
  let field_cosine_sim :=
    matmul_transpose_b field_embed_norm field_embeddings_norm in
  top <- top_k (length field_embeddings_norm) field_cosine_sim k ;;
  let (field_top_k_sim, field_top_k_idx) := top in
  let field_top_k_string :=
    map (map (index_to_string (mapping (fv_field field_variables))))
        field_top_k_idx in
  Ok {| fs_variables := field_variables;
        embed_norm := field_embed_norm;
        embeddings_norm := field_embeddings_norm;
        top_k_sim := field_top_k_sim;
        top_k_idx := field_top_k_idx;
        top_k_string := field_top_k_string |}.

Definition row_field (params : Params) : Field :=
  {| name := fn_row_id (get (field_names params) default_field_names);
     mapping := mappings_row params;
     column := row_token |}.

Definition column_field (params : Params) : Field :=
  {| name := fn_column_id (get (field_names params) default_field_names);
     mapping := mappings_column params;
     column := column_token |}.

(** The name scope "mf": the two field dictionaries and the predicted
    value. *)
Definition mf (features : Features) (params : Params) (vars : Variables)
  : result (FieldVariables * FieldVariables * list Q) :=
  row_id_variables <-
    get_field_variables features (row_field params) (row_store vars) ;;
  column_id_variables <-
    get_field_variables features (column_field params) (column_store vars) ;;
  let embed_product :=
    reduce_sum_1 (multiply (fv_embed row_id_variables)
                           (fv_embed column_id_variables)) in
  let predicted_value :=
    add_scalar (global_bias vars)
               (add_n [fv_bias row_id_variables;
                       fv_bias column_id_variables;
                       embed_product]) in
  Ok (row_id_variables, column_id_variables, predicted_value).

(** The name scope "mse". *)
Definition mse (features : Features) (params : Params) (vars : Variables)
  : result Q :=
  m <- mf features params vars ;;
  let predicted_value := snd m in
  Ok (mean_squared_error (map value features) predicted_value
                         (map weight features)).

Definition model_fn (features : Features) (mode : ModeKeys) (params : Params)
    (vars : Variables) : result EstimatorSpec :=
  let optimizer_name := get (optimizer params) "Adam"%string in
  let learning_rate := get (learning_rate params) (1 # 1000) in
  let k := get (k params) 100%Z in
  m <- mf features params vars ;;
  let '(row_id_variables, column_id_variables, predicted_value) := m in
  match mode with
  | PREDICT =>
      row_sim <- get_similarity row_id_variables k ;;
      column_sim <- get_similarity column_id_variables k ;;
      let embed_norm_product :=
        reduce_sum_1 (multiply (embed_norm row_sim) (embed_norm column_sim)) in
      Ok {| spec_mode := mode;
            predictions := Some
              {| row_embed := fv_embed row_id_variables;
                 row_bias := fv_bias row_id_variables;
                 column_embed := fv_embed column_id_variables;
                 column_bias := fv_bias column_id_variables;
                 embed_norm_product := embed_norm_product;
                 top_k_row_similarity := top_k_sim row_sim;
                 top_k_row_string := top_k_string row_sim;
                 top_k_column_similarity := top_k_sim column_sim;
                 top_k_column_string := top_k_string column_sim |};
            loss := None;
            train_op := None |}
  | EVAL =>
      let loss := mean_squared_error (map value features) predicted_value
                                     (map weight features) in
      Ok {| spec_mode := mode; predictions := None; loss := Some loss;
            train_op := None |}
  | TRAIN =>
      let loss := mean_squared_error (map value features) predicted_value
                                     (map weight features) in
      let optimizer := get_optimizer optimizer_name learning_rate in
      let train_op := optimizer (mse features params) in
      Ok {| spec_mode := mode; predictions := None; loss := Some loss;
            train_op := Some train_op |}
  end.

(** What the estimator does with the specification of one invocation: it
    runs the training operation if there is one. *)
Definition run (spec : EstimatorSpec) (vars : Variables) : Variables :=
  match train_op spec with
  | Some op => op vars
  | None => vars
  end.

Definition invoke (features : Features) (mode : ModeKeys) (params : Params)
    (vars : Variables) : result (EstimatorSpec * Variables) :=
  spec <- model_fn features mode params vars ;;
  Ok (spec, run spec vars).

End Model.

(** The variables as [model_fn] creates them on its first invocation. *)
Definition initial_variables (sqrt : Q -> Q) (rng : string -> nat -> Q)
    (params : Params) : Variables :=
  let embedding_size := get (embedding_size params) 64%nat in
  let init_field (field : Field) :=
    let field_dim := length (mapping field) in
    {| embeddings :=
         Init.get_variable_2 sqrt rng (name field ++ "_embeddings")
                             field_dim embedding_size;
       biases :=
         Init.get_variable_1 sqrt rng (name field ++ "_biases") field_dim |} in
  {| global_bias := Init.get_variable_0 sqrt rng "global_bias";
     row_store := init_field (row_field params);
     column_store := init_field (column_field params) |}.

(** The shapes that [get_variable] fixes. *)
Definition well_shaped_store (field_dim d : nat) (s : FieldStore) : Prop :=
  length (embeddings s) = field_dim /\
  Forall (fun r => length r = d) (embeddings s) /\
  length (biases s) = field_dim.

Definition well_shaped (params : Params) (vars : Variables) : Prop :=
  let d := get (embedding_size params) 64%nat in
  well_shaped_store (length (mappings_row params)) d (row_store vars) /\
  well_shaped_store (length (mappings_column params)) d (column_store vars).

End Glove.

(** ** trainer/train_estimator.py

    [model_fn] looks the tokens up, applies the model that
    [build_glove_model] returns and hands the logits, the labels, the
    weight column and the regularisation losses of the model to a
    regression head, which adds the regularisation losses to the weighted
    loss. *)

Module TrainEstimator.

Import TF.







End TrainEstimator.

(** ** The statements of the specification, as functions *)

Module Spec.

Import TF Glove.

(** The table that [index_table_from_tensor(mapping, default_value=0)]
    builds from a vocabulary. *)
Definition id_table (mapping : list string) : index_table :=
  {| table_keys := mapping; table_default := 0 |}.

(** The id that the vocabulary mapper of a field gives to a token. *)
Definition to_id (mapping : list string) (token : string) : Z :=
  lookup_one (id_table mapping) token.

(** The ids of the tokens of a field in a batch. *)
Definition ids_of (field : Field) (features : Features) : list Z :=
  lookup (id_table (mapping field)) (map (column field) features).

(** [store[id]], for the bias vector and for the embedding matrix. *)
Definition bias_at (s : FieldStore) (id : Z) : Q :=
  nth (Z.to_nat id) (biases s) 0.

Definition embed_at (s : FieldStore) (id : Z) : list Q :=
  nth (Z.to_nat id) (embeddings s) [].

(** Prediction: global_bias + row_bias[row_id] + col_bias[col_id]
    + dot(row_embed[row_id], col_embed[col_id]). *)
Definition prediction (vars : Variables) (row_id col_id : Z) : Q :=
  global_bias vars
  + bias_at (row_store vars) row_id
  + bias_at (column_store vars) col_id
  + sum (map2 Qmult (embed_at (row_store vars) row_id)
                    (embed_at (column_store vars) col_id)).

(** Weighted mean squared error:
    (sum_i weight_i * (prediction_i - value_i)^2) / (sum_i weight_i). *)
Definition weighted_sum_of_squares (predictions values weights : list Q) : Q :=
  sum (map2 Qmult weights
            (map2 (fun p v => (p - v) * (p - v)) predictions values)).

Definition weighted_mean_squared_error (predictions values weights : list Q)
  : Q :=
  weighted_sum_of_squares predictions values weights / sum weights.

(** The same numerator over another denominator. *)
Definition weighted_sum_of_squares_over (predictions values weights : list Q)
    (denominator : Q) : Q :=
  weighted_sum_of_squares predictions values weights / denominator.

(** The predictions equal the observed values wherever the weight is
    positive. *)
Fixpoint fits (predictions values weights : list Q) : Prop :=
  match predictions, values, weights with
  | p :: ps, v :: vs, w :: ws => (0 < w -> p == v) /\ fits ps vs ws
  | _, _, _ => True
  end.

(** Non-increasing scores, and ascending ids among equal scores, in a
    sequence of (id, score) pairs. *)
Definition before (a b : nat * Q) : Prop :=
  snd b < snd a \/ (snd a == snd b /\ (fst a < fst b)%nat).

Definition scores_non_increasing (l : list (nat * Q)) : Prop :=
  forall i j a b, (i < j)%nat ->
    nth_error l i = Some a -> nth_error l j = Some b -> snd b <= snd a.

Definition ties_by_ascending_id (l : list (nat * Q)) : Prop :=
  forall i j a b, (i < j)%nat ->
    nth_error l i = Some a -> nth_error l j = Some b ->
    snd a == snd b -> (fst a < fst b)%nat.

(** The (id, score) pairs that the top-k selection of [get_similarity]
    keeps for every query. *)
Definition selected (rsqrt : Q -> Q) (field_variables : FieldVariables)
    (k : Z) : list (list (nat * Q)) :=
  map (top_k_row (Z.to_nat k))
      (matmul_transpose_b
         (l2_normalize rsqrt (fv_embed field_variables))
         (l2_normalize rsqrt (fv_embeddings field_variables))).

(** A field store of [n] tokens and embedding size [d] all of whose
    entries are Glorot-uniform draws: entry [i] of the variable [name] is
    [-limit + u_i * (limit - (-limit))] for the limit of its shape. *)
Definition glorot_draws (sqrt : Q -> Q) (rng : string -> nat -> Q)
    (var_name : string) (shape : list nat) (i : nat) : Q :=
  let limit := Init.glorot_limit sqrt shape in
  - limit + rng var_name i * (limit - - limit).

Definition within (limit x : Q) : Prop := - limit <= x <= limit.

Definition glorot_initialised (sqrt : Q -> Q) (rng : string -> nat -> Q)
    (field : Field) (d : nat) (store : FieldStore) : Prop :=
  let n := length (mapping field) in
  biases store
  = map (glorot_draws sqrt rng (name field ++ "_biases") [n]) (seq 0 n) /\
  Forall (within (Init.glorot_limit sqrt [n])) (biases store) /\
  embeddings store
  = map (fun r =>
           map (fun c => glorot_draws sqrt rng (name field ++ "_embeddings")
                                      [n; d] (r * d + c)%nat)
               (seq 0 d))
        (seq 0 n) /\
  Forall (Forall (within (Init.glorot_limit sqrt [n; d]))) (embeddings store).




(** [params] with another value of "k". *)
Definition with_k (params : Params) (k' : Z) : Params :=
  {| field_names := field_names params;
     mappings_row := mappings_row params;
     mappings_column := mappings_column params;
     embedding_size := embedding_size params;
     optimizer := optimizer params;
     learning_rate := learning_rate params;
     k := Some k' |}.

(** A batch [f'] is [f] with out-of-vocabulary tokens replaced by the first
    token of the vocabulary. *)
Definition replaces_unknown (mapping : list string) (t t' : string) : Prop :=
  t' = t \/ (~ In t mapping /\ Some t' = hd_error mapping).

Definition oov_replaced (params : Params) (e e' : Example) : Prop :=
  replaces_unknown (mappings_row params) (row_token e) (row_token e') /\
  replaces_unknown (mappings_column params)
                   (column_token e) (column_token e') /\
  weight e' = weight e /\ value e' = value e.

End Spec.

(** ** Sample data *)

Module Sample.

Import Glove.

Definition vocab : list string := ["a"; "b"; "c"]%string.

Definition store : FieldStore :=
  {| embeddings := [[1; 2]; [3; 4]; [5; 6]];
     biases := [1 # 2; 1 # 3; 1 # 4] |}.

Definition vars : Variables :=
  {| global_bias := 10; row_store := store; column_store := store |}.

Definition params (k : Z) : Params :=
  {| field_names := None;
     mappings_row := vocab;
     mappings_column := vocab;
     embedding_size := Some 2%nat;
     optimizer := None;
     learning_rate := None;
     k := Some k |}.

Definition example (r c : string) (w v : Q) : Example :=
  {| row_token := r; column_token := c; weight := w; value := v |}.



(** Stand-ins for the irrational primitives, exact at 0 and at 1, and
    a constant stream of unit samples. *)
Definition rsqrt (x : Q) : Q := x.
Definition sqrt (x : Q) : Q := if Qle_bool 0 x then x else 0.
Definition rng : string -> nat -> Q := fun _ _ => 3 # 4.
Definition get_optimizer : string -> Q -> Optimizer := fun _ _ _ v => v.

End Sample.

(** ** Further notions used to state properties of the code *)

Module More.

Import TF Glove.

(** The cosine similarities that [get_similarity] ranks: one row per
    query, one column per vocabulary entry. *)
Definition cosine (rsqrt : Q -> Q) (field_variables : FieldVariables)
  : list (list Q) :=
  matmul_transpose_b (l2_normalize rsqrt (fv_embed field_variables))
                     (l2_normalize rsqrt (fv_embeddings field_variables)).

(** The answer to query number [q]: its scores, ids and tokens. *)
Definition query_result (fs : FieldSimilarity) (q : nat) (sims : list Q)
    (idxs : list Z) (strs : list string) : Prop :=
  nth_error (top_k_sim fs) q = Some sims /\
  nth_error (top_k_idx fs) q = Some idxs /\
  nth_error (top_k_string fs) q = Some strs.

(** A field dictionary over the sample store with one query, the
    embedding of the first token. *)
Definition sample_query : FieldVariables :=
  {| fv_field := row_field (Sample.params 2);
     fv_embeddings := embeddings Sample.store;
     fv_biases := biases Sample.store;
     fv_embed := [[1; 2]];
     fv_bias := [1 # 2] |}.

(** Two examples with the same row token and the same column token. *)
Definition same_tokens (e e' : Example) : Prop :=
  row_token e' = row_token e /\ column_token e' = column_token e.

(** Parameters that give the vocabulary only. *)
Definition default_params : Params :=
  {| field_names := None;
     mappings_row := Sample.vocab;
     mappings_column := Sample.vocab;
     embedding_size := Some 2%nat;
     optimizer := None;
     learning_rate := None;
     k := None |}.

(** An empty vocabulary, and variables of its shapes. *)
Definition empty_params : Params :=
  {| field_names := None;
     mappings_row := [];
     mappings_column := [];
     embedding_size := Some 2%nat;
     optimizer := None;
     learning_rate := None;
     k := Some 0%Z |}.

Definition empty_vars : Variables :=
  {| global_bias := 0;
     row_store := {| embeddings := []; biases := [] |};
     column_store := {| embeddings := []; biases := [] |} |}.

(** Two sets of variables have the same global bias and agree on the
    embedding rows and biases that the examples of a batch address. *)
Definition agree_on (params : Params) (features : Features)
    (vars vars' : Variables) : Prop :=
  global_bias vars' = global_bias vars /\
  Forall (fun e =>
            let r := Spec.to_id (mappings_row params) (row_token e) in
            let c := Spec.to_id (mappings_column params) (column_token e) in
            Spec.embed_at (row_store vars') r = Spec.embed_at (row_store vars) r /\
            Spec.bias_at (row_store vars') r = Spec.bias_at (row_store vars) r /\
            Spec.embed_at (column_store vars') c
            = Spec.embed_at (column_store vars) c /\
            Spec.bias_at (column_store vars') c
            = Spec.bias_at (column_store vars) c)
         features.

(** The sample variables with another embedding and bias for the token
    "c", which the batch of the witness below does not address. *)
Definition other_store : FieldStore :=
  {| embeddings := [[1; 2]; [3; 4]; [7; 8]];
     biases := [1 # 2; 1 # 3; 9] |}.

Definition other_vars : Variables :=
  {| global_bias := 10; row_store := other_store;
     column_store := other_store |}.

(** The factor by which [l2_normalize] multiplies a row, and the statement
    that the row has length 1 afterwards: the reciprocal square root is
    exact at the squared length of the row, which is not below epsilon. *)
Definition inv_norm (rsqrt : Q -> Q) (x : list Q) : Q :=
  rsqrt (Qmax (sum (map (fun v => v * v) x)) epsilon).

Definition unit_after_normalising (rsqrt : Q -> Q) (x : list Q) : Prop :=
  0 <= inv_norm rsqrt x /\
  inv_norm rsqrt x * inv_norm rsqrt x * sum (map (fun v => v * v) x) == 1.

(** A reciprocal square root that is exact at 1 and at 25, a store whose
    rows have these squared lengths, and queries for its second row and
    for a zero embedding. *)
Definition exact_rsqrt (x : Q) : Q :=
  if Qeq_bool x 25 then 1 # 5 else if Qeq_bool x 1 then 1 else 0.

Definition unit_store : FieldStore :=
  {| embeddings := [[3; 4]; [4; 3]; [1; 0]]; biases := [0; 0; 0] |}.

Definition unit_query : FieldVariables :=
  {| fv_field := row_field (Sample.params 2);
     fv_embeddings := embeddings unit_store;
     fv_biases := biases unit_store;
     fv_embed := [[4; 3]];
     fv_bias := [0] |}.

Definition zero_query : FieldVariables :=
  {| fv_field := row_field (Sample.params 2);
     fv_embeddings := embeddings unit_store;
     fv_biases := biases unit_store;
     fv_embed := [[0; 0]];
     fv_bias := [0] |}.

Definition unit_vars : Variables :=
  {| global_bias := 0; row_store := unit_store; column_store := unit_store |}.

(** The [params] that [train_and_evaluate] gives to the estimator: both
    fields share the vocabulary loaded from the vocabulary file. *)
Definition train_and_evaluate_params (vocab : list string)
    (embedding_size : nat) (k : Z) : Params :=
  {| field_names :=
       Some {| fn_row_id := "row_token"; fn_column_id := "column_token";
               fn_weight := "glove_weight"; fn_value := "glove_value" |};
     mappings_row := vocab;
     mappings_column := vocab;
     embedding_size := Some embedding_size;
     optimizer := None;
     learning_rate := None;
     k := Some k |}.

End More.

(** ** Lists, the error monad and rational sums *)

Section ListFacts.

Context {A B C : Type}.

Lemma map2_map (f : A -> B -> C) {X : Type} (g : X -> A) (h : X -> B)
    (l : list X) :
  TF.map2 f (map g l) (map h l) = map (fun x => f (g x) (h x)) l.
Proof.
  induction l as [|x l IH]; simpl; [reflexivity|].
  now rewrite IH.
Qed.

Lemma map2_length (f : A -> B -> C) (xs : list A) (ys : list B) :
  length xs = length ys -> length (TF.map2 f xs ys) = length xs.
Proof.
  revert ys; induction xs as [|x xs IH]; intros [|y ys] H; simpl in *;
    try discriminate; auto.
Qed.

Lemma Forall2_map_r (R : A -> B -> Prop) (f : A -> B) (l : list A) :
  (forall x, In x l -> R x (f x)) -> Forall2 R l (map f l).
Proof.
  induction l as [|x l IH]; intros H; simpl; constructor.
  - apply H; now left.
  - apply IH; intros y Hy; apply H; now right.
Qed.

Lemma mapM_ok (f : A -> result B) (g : A -> B) (l : list A) :
  (forall x, In x l -> f x = Ok (g x)) -> mapM f l = Ok (map g l).
Proof.
  induction l as [|x l IH]; intros H; simpl; [reflexivity|].
  rewrite (H x (or_introl eq_refl)); simpl.
  rewrite IH by (intros y Hy; apply H; now right).
  reflexivity.
Qed.

Lemma mapM_ext (f g : A -> result B) (l : list A) :
  (forall x, In x l -> f x = g x) -> mapM f l = mapM g l.
Proof.
  induction l as [|x l IH]; intros H; simpl; [reflexivity|].
  rewrite (H x (or_introl eq_refl)).
  rewrite IH by (intros y Hy; apply H; now right).
  reflexivity.
Qed.

End ListFacts.

Section Lookup.

Import TF.

Lemma index_of_lt (key : string) (mapping : list string) (i : nat) :
  index_of key mapping = Some i -> (i < length mapping)%nat.
Proof.
  revert i; induction mapping as [|t rest IH]; intros i; simpl.
  - discriminate.
  - destruct (String.eqb key t).
    + intros [= <-]; lia.
    + destruct (index_of key rest) as [j|]; simpl; [|discriminate].
      intros [= <-]. specialize (IH j eq_refl). lia.
Qed.

Lemma index_of_None (key : string) (mapping : list string) :
  ~ In key mapping -> index_of key mapping = None.
Proof.
  induction mapping as [|t rest IH]; simpl; intros H; [reflexivity|].
  destruct (String.eqb_spec key t) as [->|Hne].
  - exfalso; apply H; now left.
  - rewrite IH; [reflexivity|]. intros Hin; apply H; now right.
Qed.

Lemma to_id_range (mapping : list string) (token : string) :
  mapping <> [] ->
  (0 <= Spec.to_id mapping token < Z.of_nat (length mapping))%Z.
Proof.
  intros Hne. unfold Spec.to_id, lookup_one; simpl.
  destruct (index_of token mapping) as [i|] eqn:E.
  - apply index_of_lt in E. lia.
  - destruct mapping; [congruence|]. simpl length. lia.
Qed.

Lemma to_id_unknown (mapping : list string) (token : string) :
  ~ In token mapping -> Spec.to_id mapping token = 0%Z.
Proof.
  intros H. unfold Spec.to_id, lookup_one; simpl.
  now rewrite index_of_None.
Qed.

Lemma to_id_first (t : string) (rest : list string) :
  Spec.to_id (t :: rest) t = 0%Z.
Proof.
  unfold Spec.to_id, lookup_one; simpl. now rewrite String.eqb_refl.
Qed.

Lemma gather_in_range {A : Type} (params : list A) (id : Z) (d : A) :
  (0 <= id < Z.of_nat (length params))%Z ->
  gather params id = Ok (nth (Z.to_nat id) params d).
Proof.
  intros H. unfold gather.
  destruct (Z.ltb_spec id 0); [lia|].
  destruct (nth_error params (Z.to_nat id)) as [x|] eqn:E.
  - now rewrite (nth_error_nth _ _ d E).
  - apply nth_error_None in E. lia.
Qed.

Lemma gather_out_of_range {A : Type} (params : list A) (id : Z) :
  ~ (0 <= id < Z.of_nat (length params))%Z ->
  gather params id = Raise InvalidArgumentError.
Proof.
  intros H. unfold gather.
  destruct (Z.ltb_spec id 0); [reflexivity|].
  destruct (nth_error params (Z.to_nat id)) as [x|] eqn:E; [|reflexivity].
  exfalso; apply H. split; [lia|].
  assert (Z.to_nat id < length params)%nat
    by (apply nth_error_Some; congruence).
  lia.
Qed.

End Lookup.

(** ** The forward pass *)

Section Forward.

Import TF Glove.

Lemma get_field_variables_ids (features features' : Features) (field : Field)
    (store : FieldStore) :
  Spec.ids_of field features' = Spec.ids_of field features ->
  get_field_variables features' field store
  = get_field_variables features field store.
Proof.
  unfold Spec.ids_of, Spec.id_table, get_field_variables,
    index_table_from_tensor.
  destruct (mapping field) as [|t rest]; [reflexivity|].
  cbn [bind]. intros ->. reflexivity.
Qed.

Lemma index_table_from_tensor_ok (mapping : list string) :
  mapping <> [] ->
  index_table_from_tensor mapping 0 = Ok (Spec.id_table mapping).
Proof.
  destruct mapping; [congruence | reflexivity].
Qed.

Lemma get_field_variables_ok (features : Features) (field : Field)
    (store : FieldStore) :
  mapping field <> [] ->
  length (embeddings store) = length (mapping field) ->
  length (biases store) = length (mapping field) ->
  get_field_variables features field store
  = Ok {| fv_field := field;
          fv_embeddings := embeddings store;
          fv_biases := biases store;
          fv_embed :=
            map (fun e => Spec.embed_at store
                            (Spec.to_id (mapping field) (column field e)))
                features;
          fv_bias :=
            map (fun e => Spec.bias_at store
                            (Spec.to_id (mapping field) (column field e)))
                features |}.
Proof.
  intros Hne He Hb. unfold get_field_variables.
  rewrite (index_table_from_tensor_ok _ Hne). cbn [bind].
  unfold embedding_lookup, lookup.
  rewrite (mapM_ok _ (fun id => nth (Z.to_nat id) (embeddings store) [])).
  2:{ intros id Hin. apply in_map_iff in Hin as (t & <- & _).
      apply gather_in_range. rewrite He. now apply to_id_range. }
  simpl.
  rewrite (mapM_ok _ (fun id => nth (Z.to_nat id) (biases store) 0)).
  2:{ intros id Hin. apply in_map_iff in Hin as (t & <- & _).
      apply gather_in_range. rewrite Hb. now apply to_id_range. }
  simpl. rewrite !map_map. reflexivity.
Qed.

Lemma mf_ok (features : Features) (params : Params) (vars : Variables) :
  mappings_row params <> [] ->
  mappings_column params <> [] ->
  well_shaped params vars ->
  exists row_id_variables column_id_variables,
    mf features params vars
    = Ok (row_id_variables, column_id_variables,
          map (fun e =>
                 let r := Spec.to_id (mappings_row params) (row_token e) in
                 let c := Spec.to_id (mappings_column params)
                                     (column_token e) in
                 global_bias vars
                 + (Spec.bias_at (row_store vars) r
                    + Spec.bias_at (column_store vars) c
                    + sum (map2 Qmult (Spec.embed_at (row_store vars) r)
                                      (Spec.embed_at (column_store vars) c))))
              features).
Proof.
  intros Hr Hc [(Hre & _ & Hrb) (Hce & _ & Hcb)].
  unfold mf.
  rewrite (get_field_variables_ok features (row_field params)) by assumption.
  rewrite (get_field_variables_ok features (column_field params))
    by assumption.
  simpl. do 2 eexists. do 2 f_equal.
  unfold add_scalar, reduce_sum_1, multiply.
  rewrite !map2_map, map_map, !map2_map, map_map.
  reflexivity.
Qed.

End Forward.

(** C1.  On every batch the forward pass (the name scope "mf" of
    [model_fn]) succeeds and returns, for every example, the scalar
    global_bias + row_bias[row_id] + col_bias[col_id]
    + dot(row_embed[row_id], col_embed[col_id]), where the ids are those of
    the example's row and column token and the dot is the sum of the
    elementwise product of the two embedding rows. *)
Theorem forward_pass_prediction
    (features : Glove.Features) (params : Glove.Params)
    (vars : Glove.Variables) :
  Glove.mappings_row params <> [] ->
  Glove.mappings_column params <> [] ->
  Glove.well_shaped params vars ->
  exists row_id_variables column_id_variables predicted_value,
    Glove.mf features params vars
    = Ok (row_id_variables, column_id_variables, predicted_value) /\
    Forall2
      (fun e p =>
         p == Spec.prediction vars
                (Spec.to_id (Glove.mappings_row params) (Glove.row_token e))
                (Spec.to_id (Glove.mappings_column params)
                            (Glove.column_token e)))
      features predicted_value.
Proof.
  intros Hr Hc Hw.
  destruct (mf_ok features params vars Hr Hc Hw) as (rv & cv & E).
  exists rv, cv. eexists. split; [exact E|].
  apply Forall2_map_r. intros e _. unfold Spec.prediction. ring.
Qed.

Lemma forward_pass_prediction_witness :
  exists row_id_variables column_id_variables predicted_value,
    Glove.mf [Sample.example "a" "b" 1 5; Sample.example "c" "zzz" 2 0]
             (Sample.params 2) Sample.vars
    = Ok (row_id_variables, column_id_variables, predicted_value) /\
    Forall2
      (fun e p =>
         p == Spec.prediction Sample.vars
                (Spec.to_id Sample.vocab (Glove.row_token e))
                (Spec.to_id Sample.vocab (Glove.column_token e)))
      [Sample.example "a" "b" 1 5; Sample.example "c" "zzz" 2 0]
      predicted_value.
Proof.
  apply (forward_pass_prediction
           [Sample.example "a" "b" 1 5; Sample.example "c" "zzz" 2 0]
           (Sample.params 2) Sample.vars).
  - discriminate.
  - discriminate.
  - repeat split; repeat constructor.
Defined.

(** C6.  The id table of a non-empty vocabulary of size V is built
    without error; the id it gives to a token lies in [0, V); a token that
    is not in the vocabulary gets the default id 0; the lookup is a total
    function, on single tokens and on batches, so it never raises. *)
Theorem lookup_in_range_unknown_zero (mapping : list string) :
  mapping <> [] ->
  exists table,
  TF.index_table_from_tensor mapping 0 = Ok table /\
  (forall token,
      (0 <= TF.lookup_one table token < Z.of_nat (length mapping))%Z) /\
  (forall token, ~ In token mapping -> TF.lookup_one table token = 0%Z) /\
  (forall tokens,
      length (TF.lookup table tokens) = length tokens /\
      Forall (fun id => (0 <= id < Z.of_nat (length mapping))%Z)
             (TF.lookup table tokens)).
Proof.
  intros Hne. exists (Spec.id_table mapping).
  split; [now apply index_table_from_tensor_ok|]. repeat split.
  - now apply (to_id_range mapping token Hne).
  - now apply (to_id_range mapping token Hne).
  - intros token. apply to_id_unknown.
  - unfold TF.lookup. apply length_map.
  - unfold TF.lookup. apply Forall_forall. intros id Hin.
    apply in_map_iff in Hin as (t & <- & _).
    apply (to_id_range mapping t Hne).
Qed.

Lemma lookup_in_range_unknown_zero_witness :
  exists table,
  TF.index_table_from_tensor Sample.vocab 0 = Ok table /\
  (forall token,
      (0 <= TF.lookup_one table token < Z.of_nat (length Sample.vocab))%Z) /\
  (forall token, ~ In token Sample.vocab -> TF.lookup_one table token = 0%Z) /\
  (forall tokens,
      length (TF.lookup table tokens) = length tokens /\
      Forall (fun id => (0 <= id < Z.of_nat (length Sample.vocab))%Z)
             (TF.lookup table tokens)).
Proof.
  apply (lookup_in_range_unknown_zero Sample.vocab). discriminate.
Defined.

(** ** The loss *)

Section Loss.

Import TF.

Lemma weighted_losses_cons (v p w : Q) (vs ps ws : list Q) :
  weighted_losses (v :: vs) (p :: ps) (w :: ws)
  = squared_difference p v * w :: weighted_losses vs ps ws.
Proof. reflexivity. Qed.

Lemma weighted_losses_nil_l (vs ws : list Q) : weighted_losses vs [] ws = [].
Proof. reflexivity. Qed.

Lemma squared_difference_nonneg (x y : Q) : 0 <= squared_difference x y.
Proof.
  unfold squared_difference.
  destruct (Qlt_le_dec (x - y) 0) as [H|H].
  - setoid_replace ((x - y) * (x - y)) with ((- (x - y)) * (- (x - y)))
      by ring.
    apply Qmult_le_0_compat; lra.
  - now apply Qmult_le_0_compat.
Qed.

Lemma weighted_sum_nonneg (ps : list Q) :
  forall vs ws, Forall (fun w => 0 <= w) ws ->
    0 <= sum (weighted_losses vs ps ws).
Proof.
  induction ps as [|p ps IH]; intros vs ws Hw.
  - simpl. lra.
  - destruct vs as [|v vs]; [simpl; lra|].
    destruct ws as [|w ws]; [simpl; lra|].
    rewrite weighted_losses_cons. simpl sum.
    inversion Hw as [|? ? Hw0 Hws]; subst.
    specialize (IH vs ws Hws).
    pose proof (Qmult_le_0_compat _ _ (squared_difference_nonneg p v) Hw0).
    lra.
Qed.

Lemma weighted_sum_spec (ps : list Q) :
  forall vs ws,
    sum (weighted_losses vs ps ws) == Spec.weighted_sum_of_squares ps vs ws.
Proof.
  unfold Spec.weighted_sum_of_squares.
  induction ps as [|p ps IH]; intros vs ws.
  - simpl. destruct ws; reflexivity.
  - destruct vs as [|v vs]; [destruct ws; reflexivity|].
    destruct ws as [|w ws]; [reflexivity|].
    rewrite weighted_losses_cons. simpl. rewrite IH.
    unfold squared_difference. ring.
Qed.

Lemma square_zero (x : Q) : x * x == 0 -> x == 0.
Proof.
  intros H. destruct (Qmult_integral _ _ H); assumption.
Qed.

Lemma weighted_sum_zero_iff (ps : list Q) :
  forall vs ws, Forall (fun w => 0 <= w) ws ->
    (sum (weighted_losses vs ps ws) == 0 <-> Spec.fits ps vs ws).
Proof.
  induction ps as [|p ps IH]; intros vs ws Hw.
  - simpl. split; [trivial | reflexivity].
  - destruct vs as [|v vs]; [simpl; split; [trivial | reflexivity]|].
    destruct ws as [|w ws]; [simpl; split; [trivial | reflexivity]|].
    rewrite weighted_losses_cons. simpl sum. simpl Spec.fits.
    inversion Hw as [|? ? Hw0 Hws]; subst.
    pose proof (weighted_sum_nonneg ps vs ws Hws) as Hs.
    specialize (IH vs ws Hws).
    pose proof (Qmult_le_0_compat _ _ (squared_difference_nonneg p v) Hw0)
      as Hsq.
    split.
    + intros H.
      assert (H1 : squared_difference p v * w == 0) by lra.
      assert (H2 : sum (weighted_losses vs ps ws) == 0) by lra.
      split; [|now apply IH].
      intros Hpos.
      destruct (Qmult_integral _ _ H1) as [Hz|Hz]; [|lra].
      apply square_zero in Hz. lra.
    + intros [Hfit Hrest]. apply IH in Hrest.
      destruct (Qlt_le_dec 0 w) as [Hpos|Hle].
      * specialize (Hfit Hpos). unfold squared_difference.
        rewrite Hrest, Hfit. ring.
      * assert (w == 0) as -> by lra. rewrite Hrest. ring.
Qed.

Lemma div_no_nan_div (x y : Q) : div_no_nan x y == x / y.
Proof.
  unfold div_no_nan. destruct (Qeq_bool y 0) eqn:E; [|reflexivity].
  apply Qeq_bool_iff in E. rewrite E. unfold Qdiv. simpl.
  rewrite Qmult_0_r. reflexivity.
Qed.

Lemma div_no_nan_zero_iff (x y : Q) :
  0 < y -> (div_no_nan x y == 0 <-> x == 0).
Proof.
  intros Hy. rewrite div_no_nan_div. split; intros H.
  - assert (E : x == x / y * y) by (field; lra). rewrite E, H. ring.
  - rewrite H. unfold Qdiv. ring.
Qed.

Lemma nonzero_false (w : Q) : nonzero w = false <-> w == 0.
Proof.
  unfold nonzero. rewrite negb_false_iff. apply Qeq_bool_iff.
Qed.

Lemma num_present_nonneg (ws : list Q) : 0 <= num_present ws.
Proof.
  unfold num_present. change 0 with (inject_Z 0).
  rewrite <- Zle_Qle. lia.
Qed.

Lemma num_present_zero (ws : list Q) :
  num_present ws == 0 -> Forall (fun w => w == 0) ws.
Proof.
  unfold num_present. change 0 with (inject_Z 0). rewrite inject_Z_injective.
  intros H. assert (E : filter nonzero ws = [])
    by (apply length_zero_iff_nil; lia).
  clear H. induction ws as [|w ws IH]; constructor; simpl in E;
    destruct (nonzero w) eqn:Ew; try discriminate.
  - now apply nonzero_false.
  - now apply IH.
Qed.

Lemma num_present_all_zero (ws : list Q) :
  Forall (fun w => w == 0) ws -> filter nonzero ws = [].
Proof.
  induction 1 as [|w ws Hw _ IH]; simpl; [reflexivity|].
  apply nonzero_false in Hw. now rewrite Hw.
Qed.

Lemma fits_all_zero (ps : list Q) :
  forall vs ws, Forall (fun w => w == 0) ws -> Spec.fits ps vs ws.
Proof.
  induction ps as [|p ps IH]; intros vs ws Hw; simpl; [trivial|].
  destruct vs as [|v vs]; [trivial|]. destruct ws as [|w ws]; [trivial|].
  inversion Hw; subst. split; [intros; lra | now apply IH].
Qed.

Lemma fits_nil_length (ps : list Q) :
  forall vs ws, length ps = 0%nat -> Spec.fits ps vs ws.
Proof.
  intros vs ws H. apply length_zero_iff_nil in H. subst. exact I.
Qed.

End Loss.

(** C2 (as amended).  For non-negative weights the loss of glove.py is the
    weighted sum of squared differences divided by the number of non-zero
    weights, and the loss of the regression head of train_estimator.py is
    the same sum divided by the batch size; a sample of weight 0 changes
    neither numerator nor denominator of the former; both losses are zero
    iff the prediction equals the observed value wherever the weight is
    positive. *)
Theorem loss_weighted_squared_error (predictions values weights : list Q) :
  Forall (fun w => 0 <= w) weights ->
  TF.mean_squared_error values predictions weights
    == Spec.weighted_sum_of_squares_over predictions values weights
         (TF.num_present weights) /\
  TF.regression_head_loss values predictions weights
    == Spec.weighted_sum_of_squares_over predictions values weights
         (inject_Z (Z.of_nat (length predictions))) /\
  (forall p v w, w == 0 ->
     TF.sum (TF.weighted_losses (v :: values) (p :: predictions)
                                (w :: weights))
       == TF.sum (TF.weighted_losses values predictions weights) /\
     TF.num_present (w :: weights) = TF.num_present weights /\
     TF.mean_squared_error (v :: values) (p :: predictions) (w :: weights)
       == TF.mean_squared_error values predictions weights) /\
  (TF.mean_squared_error values predictions weights == 0
     <-> Spec.fits predictions values weights) /\
  (TF.regression_head_loss values predictions weights == 0
     <-> Spec.fits predictions values weights).
Proof.
  intros Hw.
  assert (Hcons : forall p v w, w == 0 ->
     TF.sum (TF.weighted_losses (v :: values) (p :: predictions)
                                (w :: weights))
       == TF.sum (TF.weighted_losses values predictions weights) /\
     TF.num_present (w :: weights) = TF.num_present weights).
  { intros p v w Hz. split.
    - rewrite weighted_losses_cons. simpl TF.sum. rewrite Hz. ring.
    - unfold TF.num_present. simpl filter.
      apply nonzero_false in Hz. now rewrite Hz. }
  repeat split.
  - unfold TF.mean_squared_error, Spec.weighted_sum_of_squares_over.
    rewrite div_no_nan_div, weighted_sum_spec. reflexivity.
  - unfold TF.regression_head_loss, Spec.weighted_sum_of_squares_over.
    rewrite div_no_nan_div, weighted_sum_spec. reflexivity.
  - now apply Hcons.
  - now apply Hcons.
  - destruct (Hcons p v w H) as [Hs Hn].
    unfold TF.mean_squared_error. rewrite Hn, !div_no_nan_div, Hs.
    reflexivity.
  - unfold TF.mean_squared_error. intros H.
    destruct (Qlt_le_dec 0 (TF.num_present weights)) as [Hpos|Hle].
    + apply weighted_sum_zero_iff; [assumption|].
      now apply (div_no_nan_zero_iff _ _ Hpos).
    + apply fits_all_zero, num_present_zero.
      pose proof (num_present_nonneg weights). lra.
  - unfold TF.mean_squared_error. intros H.
    apply (weighted_sum_zero_iff _ _ _ Hw) in H.
    rewrite div_no_nan_div, H. unfold Qdiv. ring.
  - unfold TF.regression_head_loss. intros H.
    destruct (length predictions) as [|n] eqn:E.
    + now apply fits_nil_length.
    + apply weighted_sum_zero_iff; [assumption|].
      apply (div_no_nan_zero_iff _ (inject_Z (Z.of_nat (S n)))); [|exact H].
      change 0 with (inject_Z 0). rewrite <- Zlt_Qlt. lia.
  - unfold TF.regression_head_loss. intros H.
    apply (weighted_sum_zero_iff _ _ _ Hw) in H.
    rewrite div_no_nan_div, H. unfold Qdiv. ring.
Qed.

Lemma loss_weighted_squared_error_witness :
  TF.mean_squared_error [5; 1] [16; 1] [2; 0]
    == Spec.weighted_sum_of_squares_over [16; 1] [5; 1] [2; 0]
         (TF.num_present [2; 0]) /\
  TF.regression_head_loss [5; 1] [16; 1] [2; 0]
    == Spec.weighted_sum_of_squares_over [16; 1] [5; 1] [2; 0]
         (inject_Z (Z.of_nat (length [16; 1]))) /\
  (forall p v w, w == 0 ->
     TF.sum (TF.weighted_losses (v :: [5; 1]) (p :: [16; 1]) (w :: [2; 0]))
       == TF.sum (TF.weighted_losses [5; 1] [16; 1] [2; 0]) /\
     TF.num_present (w :: [2; 0]) = TF.num_present [2; 0] /\
     TF.mean_squared_error (v :: [5; 1]) (p :: [16; 1]) (w :: [2; 0])
       == TF.mean_squared_error [5; 1] [16; 1] [2; 0]) /\
  (TF.mean_squared_error [5; 1] [16; 1] [2; 0] == 0
     <-> Spec.fits [16; 1] [5; 1] [2; 0]) /\
  (TF.regression_head_loss [5; 1] [16; 1] [2; 0] == 0
     <-> Spec.fits [16; 1] [5; 1] [2; 0]).
Proof.
  apply (loss_weighted_squared_error [16; 1] [5; 1] [2; 0]).
  repeat constructor; discriminate.
Defined.

(** C2 fails as stated: with one sample of weight 2, prediction 1 and
    observed value 0, the quotient by the sum of the weights is 1, and both
    losses are 2. *)
Lemma loss_not_divided_by_weight_sum :
  ~ (TF.mean_squared_error [0] [1] [2]
       == Spec.weighted_mean_squared_error [1] [0] [2]) /\
  ~ (TF.regression_head_loss [0] [1] [2]
       == Spec.weighted_mean_squared_error [1] [0] [2]).
Proof.
  split; intros H; vm_compute in H; discriminate.
Qed.

Lemma mean_squared_error_all_zero (values predictions weights : list Q) :
  Forall (fun w => w == 0) weights ->
  TF.mean_squared_error values predictions weights = 0.
Proof.
  intros H. unfold TF.mean_squared_error, TF.div_no_nan, TF.num_present.
  rewrite (num_present_all_zero weights H). reflexivity.
Qed.

(** C3 (as amended).  On a batch in which every weight is zero the loss
    computation raises nothing: [model_fn] succeeds in EVAL and in TRAIN
    mode and the loss it returns is 0, the quotient being defined as 0 when
    no weight is non-zero. *)
Theorem loss_zero_when_all_weights_zero
    (rsqrt : Q -> Q) (get_optimizer : string -> Q -> Glove.Optimizer)
    (features : Glove.Features) (mode : Glove.ModeKeys)
    (params : Glove.Params) (vars : Glove.Variables) :
  Glove.mappings_row params <> [] ->
  Glove.mappings_column params <> [] ->
  Glove.well_shaped params vars ->
  Forall (fun e => Glove.weight e == 0) features ->
  mode <> Glove.PREDICT ->
  exists spec,
    Glove.model_fn rsqrt get_optimizer features mode params vars = Ok spec /\
    Glove.loss spec = Some 0.
Proof.
  intros Hr Hc Hw Hz Hm.
  destruct (mf_ok features params vars Hr Hc Hw) as (rv & cv & E).
  assert (Hz' : Forall (fun w => w == 0) (map Glove.weight features))
    by (apply Forall_map; exact Hz).
  unfold Glove.model_fn. rewrite E. simpl.
  destruct mode; [| |congruence]; eexists; (split; [reflexivity|]); simpl;
    now rewrite mean_squared_error_all_zero.
Qed.

Lemma loss_zero_when_all_weights_zero_witness :
  exists spec,
    Glove.model_fn Sample.rsqrt Sample.get_optimizer
                   [Sample.example "a" "b" 0 5] Glove.EVAL
                   (Sample.params 2) Sample.vars = Ok spec /\
    Glove.loss spec = Some 0.
Proof.
  apply (loss_zero_when_all_weights_zero
           Sample.rsqrt Sample.get_optimizer
           [Sample.example "a" "b" 0 5] Glove.EVAL
           (Sample.params 2) Sample.vars).
  - discriminate.
  - discriminate.
  - repeat split; repeat constructor.
  - repeat constructor.
  - discriminate.
Defined.

(** C3 fails as stated: on a batch whose only weight is zero [model_fn]
    raises no error and returns the loss 0, although no epsilon enters the
    denominator (a single sample of weight 1 and squared difference 1 has
    loss exactly 1). *)
Lemma all_zero_weights_raise_nothing :
  (forall e,
     Glove.model_fn Sample.rsqrt Sample.get_optimizer
                    [Sample.example "a" "b" 0 5] Glove.EVAL
                    (Sample.params 2) Sample.vars <> Raise e) /\
  (exists spec,
     Glove.model_fn Sample.rsqrt Sample.get_optimizer
                    [Sample.example "a" "b" 0 5] Glove.EVAL
                    (Sample.params 2) Sample.vars = Ok spec /\
     Glove.loss spec = Some 0) /\
  TF.mean_squared_error [0] [1] [1] == 1.
Proof.
  split; [|split].
  - intros e H. vm_compute in H. discriminate.
  - eexists. split; [vm_compute; reflexivity | reflexivity].
  - reflexivity.
Qed.

(** ** Top-k selection *)

Section TopK.

Import TF.

Lemma insert_desc_In (x y : nat * Q) (l : list (nat * Q)) :
  In y (insert_desc x l) <-> y = x \/ In y l.
Proof.
  induction l as [|z l IH]; simpl.
  - intuition congruence.
  - destruct (Qle_bool (snd z) (snd x)); simpl.
    + intuition congruence.
    + rewrite IH. intuition congruence.
Qed.

Lemma insert_desc_length (x : nat * Q) (l : list (nat * Q)) :
  length (insert_desc x l) = S (length l).
Proof.
  induction l as [|z l IH]; simpl; [reflexivity|].
  destruct (Qle_bool (snd z) (snd x)); simpl; [reflexivity | now rewrite IH].
Qed.

Lemma sort_desc_length (l : list (nat * Q)) :
  length (sort_desc l) = length l.
Proof.
  induction l as [|x l IH]; simpl; [reflexivity|].
  now rewrite insert_desc_length, IH.
Qed.

Lemma sort_desc_In (y : nat * Q) (l : list (nat * Q)) :
  In y (sort_desc l) <-> In y l.
Proof.
  induction l as [|x l IH]; simpl; [tauto|].
  rewrite insert_desc_In, IH. intuition congruence.
Qed.

Lemma before_le (a b : nat * Q) : Spec.before a b -> snd b <= snd a.
Proof. intros [H|[H _]]; lra. Qed.

Lemma insert_desc_sorted (x : nat * Q) (l : list (nat * Q)) :
  StronglySorted Spec.before l ->
  Forall (fun y => (fst x < fst y)%nat) l ->
  StronglySorted Spec.before (insert_desc x l).
Proof.
  induction 1 as [|y l Hs IH Hy]; intros Hx; simpl.
  - repeat constructor.
  - inversion Hx as [|? ? Hxy Hxl]; subst.
    destruct (Qle_bool (snd y) (snd x)) eqn:E.
    + apply Qle_bool_iff in E.
      constructor; [now constructor|].
      assert (Hall : forall z, In z (y :: l) ->
                snd z <= snd x /\ (fst x < fst z)%nat).
      { intros z [<-|Hz]; [now split|].
        rewrite Forall_forall in Hy, Hxl.
        split; [|now apply Hxl].
        apply Hy, before_le in Hz. lra. }
      apply Forall_forall. intros z Hz.
      destruct (Hall z Hz) as [Hle Hlt].
      destruct (Qlt_le_dec (snd z) (snd x)) as [Hl|Hg].
      * now left.
      * right. split; [lra | assumption].
    + assert (Hlt : snd x < snd y).
      { destruct (Qlt_le_dec (snd x) (snd y)) as [H|H]; [assumption|].
        apply Qle_bool_iff in H. congruence. }
      constructor; [now apply IH|].
      apply Forall_forall. intros z Hz.
      apply (proj1 (insert_desc_In _ _ _)) in Hz as [->|Hz].
      * now left.
      * rewrite Forall_forall in Hy. now apply Hy.
Qed.

Lemma sort_desc_enumerate_sorted (row : list Q) (start : nat) :
  StronglySorted Spec.before
    (sort_desc (combine (seq start (length row)) row)).
Proof.
  revert start; induction row as [|q row IH]; intros start; simpl.
  - constructor.
  - apply insert_desc_sorted; [apply IH|].
    apply Forall_forall. intros y Hy.
    apply (proj1 (sort_desc_In _ _)) in Hy.
    destruct y as [i s]. apply in_combine_l, in_seq in Hy. simpl. lia.
Qed.

Lemma firstn_sorted {A : Type} (R : A -> A -> Prop) (n : nat) (l : list A) :
  StronglySorted R l -> StronglySorted R (firstn n l).
Proof.
  intros H; revert n; induction H as [|x l Hs IH Hx]; intros [|n]; simpl;
    try constructor; auto.
  rewrite Forall_forall in *. intros y Hy.
  apply Hx. eapply (In_nth_error) in Hy as [i Hi].
  apply nth_error_In with (n := i).
  rewrite nth_error_firstn in Hi. destruct (i <? n)%nat; congruence.
Qed.

Lemma sorted_nth {A : Type} (R : A -> A -> Prop) (l : list A) :
  StronglySorted R l ->
  forall i j a b, (i < j)%nat ->
    nth_error l i = Some a -> nth_error l j = Some b -> R a b.
Proof.
  induction 1 as [|x l Hs IH Hx]; intros i j a b Hij Ha Hb.
  - destruct i; discriminate.
  - destruct j as [|j]; [lia|]. simpl in Hb.
    destruct i as [|i]; simpl in Ha.
    + injection Ha as <-. rewrite Forall_forall in Hx.
      eapply Hx, nth_error_In, Hb.
    + apply (IH i j); [lia | assumption | assumption].
Qed.

Lemma top_k_row_sorted (k : nat) (row : list Q) :
  StronglySorted Spec.before (top_k_row k row).
Proof.
  apply firstn_sorted, sort_desc_enumerate_sorted.
Qed.

Lemma top_k_row_length (k : nat) (row : list Q) :
  length (top_k_row k row) = Nat.min k (length row).
Proof.
  unfold top_k_row, enumerate.
  rewrite length_firstn, sort_desc_length, length_combine, length_seq.
  lia.
Qed.

Lemma top_k_row_ordered (k : nat) (row : list Q) :
  Spec.scores_non_increasing (top_k_row k row) /\
  Spec.ties_by_ascending_id (top_k_row k row).
Proof.
  pose proof (sorted_nth _ _ (top_k_row_sorted k row)) as H.
  split; intros i j a b Hij Ha Hb.
  - apply before_le. now apply (H i j).
  - intros Heq. destruct (H i j a b Hij Ha Hb) as [Hlt|[_ Hlt]];
      [lra | assumption].
Qed.

Lemma recombine (sel : list (nat * Q)) :
  combine (map Z.to_nat (map (fun p => Z.of_nat (fst p)) sel)) (map snd sel)
  = sel.
Proof.
  induction sel as [|[i s] sel IH]; simpl; [reflexivity|].
  now rewrite Nat2Z.id, IH.
Qed.

End TopK.

Section Similarity.

Import TF Glove.

Variable rsqrt : Q -> Q.

Lemma get_similarity_ok (field_variables : FieldVariables) (k : Z) :
  (0 <= k <= Z.of_nat (length (fv_embeddings field_variables)))%Z ->
  get_similarity rsqrt field_variables k
  = Ok {| fs_variables := field_variables;
          embed_norm := l2_normalize rsqrt (fv_embed field_variables);
          embeddings_norm :=
            l2_normalize rsqrt (fv_embeddings field_variables);
          top_k_sim := map (map snd) (Spec.selected rsqrt field_variables k);
          top_k_idx :=
            map (map (fun p => Z.of_nat (fst p)))
                (Spec.selected rsqrt field_variables k);
          top_k_string :=
            map (map (index_to_string
                        (mapping (fv_field field_variables))))
                (map (map (fun p => Z.of_nat (fst p)))
                     (Spec.selected rsqrt field_variables k)) |}.
Proof.
  intros Hk. unfold get_similarity, top_k, l2_normalize.
  rewrite length_map.
  destruct (Z.ltb_spec k 0); [lia|].
  destruct (Z.ltb_spec (Z.of_nat (length (fv_embeddings field_variables))) k);
    [lia|].
  reflexivity.
Qed.

Lemma get_similarity_raises (field_variables : FieldVariables) (k : Z) :
  ~ (0 <= k <= Z.of_nat (length (fv_embeddings field_variables)))%Z ->
  get_similarity rsqrt field_variables k = Raise ValueError.
Proof.
  intros Hk. unfold get_similarity, top_k, l2_normalize.
  rewrite length_map.
  destruct (Z.ltb_spec k 0); [reflexivity|].
  destruct (Z.ltb_spec (Z.of_nat (length (fv_embeddings field_variables))) k);
    [reflexivity|].
  lia.
Qed.

Lemma selected_row_length (field_variables : FieldVariables) (k : Z)
    (sel : list (nat * Q)) :
  In sel (Spec.selected rsqrt field_variables k) ->
  length sel
  = Nat.min (Z.to_nat k) (length (fv_embeddings field_variables)).
Proof.
  unfold Spec.selected, matmul_transpose_b, l2_normalize.
  intros H.
  apply in_map_iff in H as (row & <- & H).
  apply in_map_iff in H as (u & <- & _).
  now rewrite top_k_row_length, !length_map.
Qed.

Lemma selected_row_ordered (field_variables : FieldVariables) (k : Z)
    (sel : list (nat * Q)) :
  In sel (Spec.selected rsqrt field_variables k) ->
  Spec.scores_non_increasing sel /\ Spec.ties_by_ascending_id sel.
Proof.
  unfold Spec.selected. intros H.
  apply in_map_iff in H as (row & <- & _). apply top_k_row_ordered.
Qed.

End Similarity.

Lemma Forall2_map_map {A B C : Type} (R : B -> C -> Prop) (f : A -> B)
    (g : A -> C) (l : list A) :
  (forall x, In x l -> R (f x) (g x)) -> Forall2 R (map f l) (map g l).
Proof.
  induction l as [|x l IH]; intros H; simpl; constructor.
  - apply H; now left.
  - apply IH; intros y Hy; apply H; now right.
Qed.

(** C5.  A top-k similarity request with 0 <= k <= V succeeds and returns,
    for every query, a sequence of min(k, V) scores with their ids; read as
    (id, score) pairs, its scores are non-increasing and two entries of
    equal score come in the order of their ids; the returned tokens are
    those of the ids. *)
Theorem top_k_length_and_order
    (rsqrt : Q -> Q) (field_variables : Glove.FieldVariables) (k : Z) :
  let V := length (Glove.fv_embeddings field_variables) in
  (0 <= k <= Z.of_nat V)%Z ->
  exists fs,
    Glove.get_similarity rsqrt field_variables k = Ok fs /\
    length (Glove.top_k_sim fs) = length (Glove.fv_embed field_variables) /\
    Forall2
      (fun sims idxs =>
         let returned := combine (map Z.to_nat idxs) sims in
         length sims = Nat.min (Z.to_nat k) V /\
         length idxs = Nat.min (Z.to_nat k) V /\
         length returned = Nat.min (Z.to_nat k) V /\
         Spec.scores_non_increasing returned /\
         Spec.ties_by_ascending_id returned)
      (Glove.top_k_sim fs) (Glove.top_k_idx fs) /\
    Glove.top_k_string fs
    = map (map (TF.index_to_string
                  (Glove.mapping (Glove.fv_field field_variables))))
          (Glove.top_k_idx fs).
Proof.
  intros V Hk. eexists. split; [now apply get_similarity_ok|].
  simpl. split; [|split; [|reflexivity]].
  - unfold Spec.selected, TF.matmul_transpose_b, Glove.l2_normalize.
    now rewrite !length_map.
  - apply Forall2_map_map. intros sel Hsel.
    rewrite recombine, !length_map.
    pose proof (selected_row_length rsqrt field_variables k sel Hsel).
    pose proof (selected_row_ordered rsqrt field_variables k sel Hsel).
    tauto.
Qed.

Lemma top_k_length_and_order_witness :
  let field_variables :=
    {| Glove.fv_field := Glove.row_field (Sample.params 2);
       Glove.fv_embeddings := Glove.embeddings Sample.store;
       Glove.fv_biases := Glove.biases Sample.store;
       Glove.fv_embed := [[1; 2]];
       Glove.fv_bias := [1 # 2] |} in
  exists fs,
    Glove.get_similarity Sample.rsqrt field_variables 2 = Ok fs /\
    length (Glove.top_k_sim fs) = length (Glove.fv_embed field_variables) /\
    Forall2
      (fun sims idxs =>
         let returned := combine (map Z.to_nat idxs) sims in
         length sims = Nat.min (Z.to_nat 2) 3 /\
         length idxs = Nat.min (Z.to_nat 2) 3 /\
         length returned = Nat.min (Z.to_nat 2) 3 /\
         Spec.scores_non_increasing returned /\
         Spec.ties_by_ascending_id returned)
      (Glove.top_k_sim fs) (Glove.top_k_idx fs) /\
    Glove.top_k_string fs
    = map (map (TF.index_to_string
                  (Glove.mapping (Glove.fv_field field_variables))))
          (Glove.top_k_idx fs).
Proof.
  intros field_variables.
  apply (top_k_length_and_order Sample.rsqrt field_variables 2).
  simpl. lia.
Defined.

(** ** The parameter k *)

Section TopKParameter.

Import TF Glove.

Variable rsqrt : Q -> Q.
Variable get_optimizer : string -> Q -> Optimizer.

Lemma get_field_variables_inv (features : Features) (field : Field)
    (store : FieldStore) (fv : FieldVariables) :
  get_field_variables features field store = Ok fv ->
  fv_embeddings fv = embeddings store /\ fv_field fv = field.
Proof.
  unfold get_field_variables.
  destruct (index_table_from_tensor (mapping field) 0) as [table|];
    cbn [bind]; [|discriminate].
  destruct (embedding_lookup (embeddings store) _); simpl; [|discriminate].
  destruct (embedding_lookup (biases store) _); simpl; [|discriminate].
  intros [= <-]. split; reflexivity.
Qed.

Lemma mf_inv (features : Features) (params : Params) (vars : Variables)
    (rv cv : FieldVariables) (pv : list Q) :
  mf features params vars = Ok (rv, cv, pv) ->
  fv_embeddings rv = embeddings (row_store vars) /\
  fv_embeddings cv = embeddings (column_store vars).
Proof.
  unfold mf.
  destruct (get_field_variables features (row_field params) _) as [r|] eqn:Er;
    simpl; [|discriminate].
  destruct (get_field_variables features (column_field params) _)
    as [c|] eqn:Ec; simpl; [|discriminate].
  intros [= <- <- _].
  apply get_field_variables_inv in Er, Ec. tauto.
Qed.

Lemma in_range_dec (k : Z) (n : nat) :
  {(0 <= k <= Z.of_nat n)%Z} + {~ (0 <= k <= Z.of_nat n)%Z}.
Proof.
  destruct (Z_le_dec 0 k); [|right; lia].
  destruct (Z_le_dec k (Z.of_nat n)); [left; lia | right; lia].
Qed.

Lemma model_fn_predict_raises (features : Features) (params : Params)
    (vars : Variables) :
  let kk := get (k params) 100%Z in
  ~ (0 <= kk <= Z.of_nat (length (embeddings (row_store vars))))%Z \/
  ~ (0 <= kk <= Z.of_nat (length (embeddings (column_store vars))))%Z ->
  exists e, model_fn rsqrt get_optimizer features PREDICT params vars = Raise e.
Proof.
  intros kk Hk. unfold model_fn.
  destruct (mf features params vars) as [[[rv cv] pv]|e] eqn:E; simpl;
    [|now exists e].
  apply mf_inv in E as [Er Ec]. fold kk.
  destruct (in_range_dec kk (length (fv_embeddings rv))) as [Hin|Hout].
  - rewrite (get_similarity_ok rsqrt rv kk Hin). simpl.
    rewrite (get_similarity_raises rsqrt cv kk); [now eexists|].
    rewrite Ec. rewrite Er in Hin. tauto.
  - rewrite (get_similarity_raises rsqrt rv kk Hout). now eexists.
Qed.

Lemma model_fn_predict_exact (features : Features) (params : Params)
    (vars : Variables) (spec : EstimatorSpec) :
  model_fn rsqrt get_optimizer features PREDICT params vars = Ok spec ->
  exists p,
    predictions spec = Some p /\
    (0 <= get (k params) 100)%Z /\
    Forall (fun sims => Z.of_nat (length sims) = get (k params) 100%Z)
           (top_k_row_similarity p) /\
    Forall (fun sims => Z.of_nat (length sims) = get (k params) 100%Z)
           (top_k_column_similarity p).
Proof.
  unfold model_fn. set (kk := get (k params) 100%Z).
  destruct (mf features params vars) as [[[rv cv] pv]|e] eqn:E; simpl;
    [|discriminate].
  destruct (in_range_dec kk (length (fv_embeddings rv))) as [Hr|Hr];
    [|rewrite (get_similarity_raises rsqrt rv kk Hr); discriminate].
  rewrite (get_similarity_ok rsqrt rv kk Hr). simpl.
  destruct (in_range_dec kk (length (fv_embeddings cv))) as [Hc|Hc];
    [|rewrite (get_similarity_raises rsqrt cv kk Hc); discriminate].
  rewrite (get_similarity_ok rsqrt cv kk Hc). simpl.
  intros [= <-]. simpl. eexists. split; [reflexivity|].
  split; [lia|].
  split; apply Forall_forall; intros sims Hin;
    apply in_map_iff in Hin as (sel & <- & Hsel);
    rewrite length_map, (selected_row_length rsqrt _ kk sel Hsel); lia.
Qed.

End TopKParameter.

(** C4 (as amended).  The parameter k is examined by the top-k selection
    of a PREDICT invocation only.  An invocation in TRAIN or EVAL mode does
    not depend on k.  In PREDICT mode a k that is negative or exceeds the
    vocabulary size of the row or of the column field makes [model_fn]
    raise, and whenever [model_fn] succeeds every query gets exactly k
    similarities: k is never clamped. *)
Theorem k_checked_by_top_k_only
    (rsqrt : Q -> Q) (get_optimizer : string -> Q -> Glove.Optimizer)
    (features : Glove.Features) (params : Glove.Params)
    (vars : Glove.Variables) :
  Glove.well_shaped params vars ->
  (forall mode k1 k2, mode <> Glove.PREDICT ->
     Glove.model_fn rsqrt get_optimizer features mode
                    (Spec.with_k params k1) vars
     = Glove.model_fn rsqrt get_optimizer features mode
                      (Spec.with_k params k2) vars) /\
  (forall k,
     (k < 0 \/ Z.of_nat (length (Glove.mappings_row params)) < k
      \/ Z.of_nat (length (Glove.mappings_column params)) < k)%Z ->
     exists e,
       Glove.model_fn rsqrt get_optimizer features Glove.PREDICT
                      (Spec.with_k params k) vars = Raise e) /\
  (forall k spec,
     Glove.model_fn rsqrt get_optimizer features Glove.PREDICT
                    (Spec.with_k params k) vars = Ok spec ->
     exists p,
       Glove.predictions spec = Some p /\
       Forall (fun sims => Z.of_nat (length sims) = k)
              (Glove.top_k_row_similarity p) /\
       Forall (fun sims => Z.of_nat (length sims) = k)
              (Glove.top_k_column_similarity p)).
Proof.
  intros [(Hre & _) (Hce & _)]. split; [|split].
  - intros mode k1 k2 Hm. destruct mode; [reflexivity | reflexivity |].
    congruence.
  - intros k Hk. apply model_fn_predict_raises. simpl.
    simpl in Hre, Hce. rewrite Hre, Hce. lia.
  - intros k spec H.
    destruct (model_fn_predict_exact _ _ _ _ _ _ H) as (p & Hp & _ & Hr & Hc).
    exists p. simpl in Hr, Hc. tauto.
Qed.

Lemma k_checked_by_top_k_only_witness :
  (forall mode k1 k2, mode <> Glove.PREDICT ->
     Glove.model_fn Sample.rsqrt Sample.get_optimizer
                    [Sample.example "a" "b" 1 5] mode
                    (Spec.with_k (Sample.params 2) k1) Sample.vars
     = Glove.model_fn Sample.rsqrt Sample.get_optimizer
                      [Sample.example "a" "b" 1 5] mode
                      (Spec.with_k (Sample.params 2) k2) Sample.vars) /\
  (forall k,
     (k < 0 \/ Z.of_nat (length (Glove.mappings_row (Sample.params 2))) < k
      \/ Z.of_nat (length (Glove.mappings_column (Sample.params 2))) < k)%Z ->
     exists e,
       Glove.model_fn Sample.rsqrt Sample.get_optimizer
                      [Sample.example "a" "b" 1 5] Glove.PREDICT
                      (Spec.with_k (Sample.params 2) k) Sample.vars
       = Raise e) /\
  (forall k spec,
     Glove.model_fn Sample.rsqrt Sample.get_optimizer
                    [Sample.example "a" "b" 1 5] Glove.PREDICT
                    (Spec.with_k (Sample.params 2) k) Sample.vars = Ok spec ->
     exists p,
       Glove.predictions spec = Some p /\
       Forall (fun sims => Z.of_nat (length sims) = k)
              (Glove.top_k_row_similarity p) /\
       Forall (fun sims => Z.of_nat (length sims) = k)
              (Glove.top_k_column_similarity p)).
Proof.
  apply (k_checked_by_top_k_only
           Sample.rsqrt Sample.get_optimizer [Sample.example "a" "b" 1 5]
           (Sample.params 2) Sample.vars).
  repeat split; repeat constructor.
Defined.

(** C4 fails as stated: over the vocabulary of size 3, k = 0 and k = 7 lie
    outside [1, 3], and [model_fn] returns a specification, without any
    error, in EVAL mode with k = 0 and in TRAIN mode with k = 7. *)
Lemma invalid_k_accepted_when_not_predicting :
  length Sample.vocab = 3%nat /\
  is_ok (Glove.model_fn Sample.rsqrt Sample.get_optimizer
                        [Sample.example "a" "b" 1 5] Glove.EVAL
                        (Sample.params 0) Sample.vars) = true /\
  is_ok (Glove.model_fn Sample.rsqrt Sample.get_optimizer
                        [Sample.example "a" "b" 1 5] Glove.TRAIN
                        (Sample.params 7) Sample.vars) = true /\
  (forall e,
     Glove.model_fn Sample.rsqrt Sample.get_optimizer
                    [Sample.example "a" "b" 1 5] Glove.EVAL
                    (Sample.params 0) Sample.vars <> Raise e) /\
  (forall e,
     Glove.model_fn Sample.rsqrt Sample.get_optimizer
                    [Sample.example "a" "b" 1 5] Glove.TRAIN
                    (Sample.params 7) Sample.vars <> Raise e).
Proof.
  repeat split; try reflexivity; intros e H; vm_compute in H; discriminate.
Qed.

(** ** Initial values *)

Section InitialValues.

Variable sqrt : Q -> Q.
Variable rng : string -> nat -> Q.
Hypothesis sqrt_nonneg : forall x, 0 <= sqrt x.
Hypothesis rng_unit : forall name i, 0 <= rng name i < 1.

Lemma glorot_uniform_draws (name : string) (shape : list nat) (i : nat) :
  Init.glorot_uniform sqrt rng name shape i
  = Spec.glorot_draws sqrt rng name shape i.
Proof. reflexivity. Qed.

Lemma glorot_limit_nonneg (shape : list nat) :
  0 <= Init.glorot_limit sqrt shape.
Proof.
  unfold Init.glorot_limit. destruct (Init.compute_fans shape).
  apply sqrt_nonneg.
Qed.

Lemma glorot_draws_within (name : string) (shape : list nat) (i : nat) :
  Spec.within (Init.glorot_limit sqrt shape)
              (Spec.glorot_draws sqrt rng name shape i).
Proof.
  unfold Spec.within, Spec.glorot_draws.
  pose proof (glorot_limit_nonneg shape) as HL.
  destruct (rng_unit name i) as [H0 H1].
  set (L := Init.glorot_limit sqrt shape) in *.
  set (u := rng name i) in *.
  assert (0 <= u * L) by (apply Qmult_le_0_compat; lra).
  assert (0 <= (1 - u) * L) by (apply Qmult_le_0_compat; lra).
  split; lra.
Qed.

Lemma init_field_glorot (field : Glove.Field) (d : nat) :
  Spec.glorot_initialised sqrt rng field d
    {| Glove.embeddings :=
         Init.get_variable_2 sqrt rng (Glove.name field ++ "_embeddings")
                             (length (Glove.mapping field)) d;
       Glove.biases :=
         Init.get_variable_1 sqrt rng (Glove.name field ++ "_biases")
                             (length (Glove.mapping field)) |}.
Proof.
  unfold Spec.glorot_initialised; simpl. repeat split.
  - apply Forall_forall. intros b Hb.
    apply in_map_iff in Hb as (i & <- & _). apply glorot_draws_within.
  - apply Forall_forall. intros r Hr.
    apply in_map_iff in Hr as (i & <- & _).
    apply Forall_forall. intros x Hx.
    apply in_map_iff in Hx as (j & <- & _). apply glorot_draws_within.
Qed.

End InitialValues.

(** C7 (as amended).  At model construction the bias vector and the V x D
    embedding matrix of each embedding table are both initialised by the
    default initializer of [get_variable], with small random values: every
    entry is a Glorot-uniform draw and lies within the limit of the shape
    of its variable.  The bias vector is not set to zero. *)
Theorem variables_initialised_by_glorot_uniform
    (sqrt : Q -> Q) (rng : string -> nat -> Q) (params : Glove.Params) :
  (forall x, 0 <= sqrt x) ->
  (forall name i, 0 <= rng name i < 1) ->
  let vars := Glove.initial_variables sqrt rng params in
  let d := Glove.get (Glove.embedding_size params) 64%nat in
  Spec.glorot_initialised sqrt rng (Glove.row_field params) d
                          (Glove.row_store vars) /\
  Spec.glorot_initialised sqrt rng (Glove.column_field params) d
                          (Glove.column_store vars) /\
  Glove.well_shaped params vars.
Proof.
  intros Hs Hr vars d. split; [|split].
  - apply init_field_glorot; assumption.
  - apply init_field_glorot; assumption.
  - unfold Glove.well_shaped, Glove.well_shaped_store, vars,
      Glove.initial_variables, Init.get_variable_2, Init.get_variable_1.
    simpl. rewrite !length_map, !length_seq.
    repeat split; apply Forall_forall; intros r Hr';
      apply in_map_iff in Hr' as (i & <- & _);
      now rewrite length_map, length_seq.
Qed.

Lemma sample_sqrt_nonneg (x : Q) : 0 <= Sample.sqrt x.
Proof.
  unfold Sample.sqrt. destruct (Qle_bool 0 x) eqn:E.
  - now apply Qle_bool_iff.
  - apply Qle_refl.
Qed.

Lemma variables_initialised_by_glorot_uniform_witness :
  let vars := Glove.initial_variables Sample.sqrt Sample.rng
                                      (Sample.params 2) in
  let d := Glove.get (Glove.embedding_size (Sample.params 2)) 64%nat in
  Spec.glorot_initialised Sample.sqrt Sample.rng
                          (Glove.row_field (Sample.params 2)) d
                          (Glove.row_store vars) /\
  Spec.glorot_initialised Sample.sqrt Sample.rng
                          (Glove.column_field (Sample.params 2)) d
                          (Glove.column_store vars) /\
  Glove.well_shaped (Sample.params 2) vars.
Proof.
  apply (variables_initialised_by_glorot_uniform
           Sample.sqrt Sample.rng (Sample.params 2)).
  - exact sample_sqrt_nonneg.
  - intros name i. unfold Sample.rng. split; [discriminate | reflexivity].
Defined.

(** C7 fails as stated: over the vocabulary of size 3 the limit of the
    bias vector is sqrt 1 = 1, and with unit samples 3/4 every bias is
    initialised to 1/2, not to zero. *)
Lemma biases_not_initialised_to_zero :
  let vars := Glove.initial_variables Sample.sqrt Sample.rng
                                      (Sample.params 2) in
  Forall (fun b => b == 1 # 2) (Glove.biases (Glove.row_store vars)) /\
  length (Glove.biases (Glove.row_store vars)) = 3%nat /\
  ~ Forall (fun b => b == 0) (Glove.biases (Glove.row_store vars)) /\
  ~ Forall (fun b => b == 0) (Glove.biases (Glove.column_store vars)).
Proof.
  vm_compute. repeat split.
  - repeat constructor.
  - intros H. inversion H as [|? ? H0 _]. discriminate H0.
  - intros H. inversion H as [|? ? H0 _]. discriminate H0.
Qed.

(** ** Regularisation *)

Section Regularisation.

Import TF TrainEstimator.

Lemma square_nonneg (x : Q) : 0 <= x * x.
Proof.
  pose proof (squared_difference_nonneg x 0) as H.
  unfold squared_difference in H.
  setoid_replace (x * x) with ((x - 0) * (x - 0)) by ring. exact H.
Qed.










End Regularisation.



(** ** Modes *)

(** C9.  An invocation in EVAL mode computes the forward pass and the loss
    only: it succeeds on every batch, its specification carries the loss of
    the predicted values and neither predictions nor a training operation,
    it does not depend on the optimizer, and the variables (global bias,
    both embedding matrices, both bias vectors) after the invocation are
    the variables before it. *)
Theorem eval_computes_loss_only
    (rsqrt : Q -> Q) (get_optimizer : string -> Q -> Glove.Optimizer)
    (features : Glove.Features) (params : Glove.Params)
    (vars : Glove.Variables) :
  Glove.mappings_row params <> [] ->
  Glove.mappings_column params <> [] ->
  Glove.well_shaped params vars ->
  (exists spec row_id_variables column_id_variables predicted_value,
     Glove.invoke rsqrt get_optimizer features Glove.EVAL params vars
     = Ok (spec, vars) /\
     Glove.mf features params vars
     = Ok (row_id_variables, column_id_variables, predicted_value) /\
     Glove.loss spec
     = Some (TF.mean_squared_error (map Glove.value features)
                                   predicted_value
                                   (map Glove.weight features)) /\
     Glove.predictions spec = None /\
     Glove.train_op spec = None) /\
  (forall spec vars',
     Glove.invoke rsqrt get_optimizer features Glove.EVAL params vars
     = Ok (spec, vars') ->
     vars' = vars /\ Glove.train_op spec = None) /\
  (forall other_optimizer,
     Glove.model_fn rsqrt other_optimizer features Glove.EVAL params vars
     = Glove.model_fn rsqrt get_optimizer features Glove.EVAL params vars).
Proof.
  intros Hr Hc Hw.
  destruct (mf_ok features params vars Hr Hc Hw) as (rv & cv & E).
  unfold Glove.invoke, Glove.model_fn. rewrite E. simpl.
  split; [|split].
  - do 4 eexists. repeat split.
  - intros spec vars' [= <- <-]. split; reflexivity.
  - reflexivity.
Qed.

Lemma eval_computes_loss_only_witness :
  (exists spec row_id_variables column_id_variables predicted_value,
     Glove.invoke Sample.rsqrt Sample.get_optimizer
                  [Sample.example "a" "b" 1 5] Glove.EVAL
                  (Sample.params 2) Sample.vars
     = Ok (spec, Sample.vars) /\
     Glove.mf [Sample.example "a" "b" 1 5] (Sample.params 2) Sample.vars
     = Ok (row_id_variables, column_id_variables, predicted_value) /\
     Glove.loss spec
     = Some (TF.mean_squared_error
               (map Glove.value [Sample.example "a" "b" 1 5])
               predicted_value
               (map Glove.weight [Sample.example "a" "b" 1 5])) /\
     Glove.predictions spec = None /\
     Glove.train_op spec = None) /\
  (forall spec vars',
     Glove.invoke Sample.rsqrt Sample.get_optimizer
                  [Sample.example "a" "b" 1 5] Glove.EVAL
                  (Sample.params 2) Sample.vars
     = Ok (spec, vars') ->
     vars' = Sample.vars /\ Glove.train_op spec = None) /\
  (forall other_optimizer,
     Glove.model_fn Sample.rsqrt other_optimizer
                    [Sample.example "a" "b" 1 5] Glove.EVAL
                    (Sample.params 2) Sample.vars
     = Glove.model_fn Sample.rsqrt Sample.get_optimizer
                      [Sample.example "a" "b" 1 5] Glove.EVAL
                      (Sample.params 2) Sample.vars).
Proof.
  apply (eval_computes_loss_only
           Sample.rsqrt Sample.get_optimizer [Sample.example "a" "b" 1 5]
           (Sample.params 2) Sample.vars).
  - discriminate.
  - discriminate.
  - repeat split; repeat constructor.
Defined.

(** ** Unknown tokens *)

Section UnknownTokens.

Import TF Glove.

Lemma replaces_unknown_same_id (mapping : list string) (t t' : string) :
  Spec.replaces_unknown mapping t t' ->
  Spec.to_id mapping t' = Spec.to_id mapping t.
Proof.
  intros [->|[Hnot Hhd]]; [reflexivity|].
  destruct mapping as [|t0 rest]; [discriminate|].
  injection Hhd as ->.
  now rewrite to_id_first, to_id_unknown.
Qed.

Lemma oov_replaced_columns (params : Params) (features features' : Features) :
  Forall2 (Spec.oov_replaced params) features features' ->
  Spec.ids_of (row_field params) features'
  = Spec.ids_of (row_field params) features /\
  Spec.ids_of (column_field params) features'
  = Spec.ids_of (column_field params) features /\
  map weight features' = map weight features /\
  map value features' = map value features.
Proof.
  unfold Spec.ids_of, lookup.
  induction 1 as [|e e' f f' (Hr & Hc & Hw & Hv) _ (IHr & IHc & IHw & IHv)];
    simpl; [repeat split|].
  apply replaces_unknown_same_id in Hr, Hc.
  unfold Spec.to_id in Hr, Hc. simpl in *.
  rewrite Hr, Hc, Hw, Hv, IHr, IHc, IHw, IHv. repeat split.
Qed.

Lemma mf_oov_replaced (params : Params) (features features' : Features)
    (vars : Variables) :
  Forall2 (Spec.oov_replaced params) features features' ->
  mf features' params vars = mf features params vars.
Proof.
  intros H. destruct (oov_replaced_columns params _ _ H) as (Hr & Hc & _).
  unfold mf.
  now rewrite (get_field_variables_ids features features' _ _ Hr),
              (get_field_variables_ids features features' _ _ Hc).
Qed.

Lemma mse_oov_replaced (params : Params) (features features' : Features) :
  Forall2 (Spec.oov_replaced params) features features' ->
  mse features' params = mse features params.
Proof.
  intros H. apply functional_extensionality. intros vars. unfold mse.
  destruct (oov_replaced_columns params _ _ H) as (_ & _ & Hw & Hv).
  now rewrite (mf_oov_replaced params _ _ vars H), Hw, Hv.
Qed.

End UnknownTokens.

(** C10.  If a batch is changed by replacing out-of-vocabulary tokens by
    the first token of the vocabulary of their field, then, for the same
    variables and in every mode, [model_fn] returns the same result: the
    same predicted values and loss, the same looked-up embeddings and
    biases and the same top-k similarities and tokens. *)
Theorem unknown_token_is_first_token
    (rsqrt : Q -> Q) (get_optimizer : string -> Q -> Glove.Optimizer)
    (features features' : Glove.Features) (mode : Glove.ModeKeys)
    (params : Glove.Params) (vars : Glove.Variables) :
  Forall2 (Spec.oov_replaced params) features features' ->
  Glove.mf features' params vars = Glove.mf features params vars /\
  Glove.model_fn rsqrt get_optimizer features' mode params vars
  = Glove.model_fn rsqrt get_optimizer features mode params vars.
Proof.
  intros H. split; [now apply mf_oov_replaced|].
  destruct (oov_replaced_columns params _ _ H) as (_ & _ & Hw & Hv).
  unfold Glove.model_fn.
  now rewrite (mf_oov_replaced params _ _ vars H),
              (mse_oov_replaced params _ _ H), Hw, Hv.
Qed.

Lemma unknown_token_is_first_token_witness :
  Glove.mf [Sample.example "a" "a" 1 5] (Sample.params 2) Sample.vars
  = Glove.mf [Sample.example "zzz" "a" 1 5] (Sample.params 2) Sample.vars /\
  Glove.model_fn Sample.rsqrt Sample.get_optimizer
                 [Sample.example "a" "a" 1 5] Glove.PREDICT
                 (Sample.params 2) Sample.vars
  = Glove.model_fn Sample.rsqrt Sample.get_optimizer
                   [Sample.example "zzz" "a" 1 5] Glove.PREDICT
                   (Sample.params 2) Sample.vars.
Proof.
  apply (unknown_token_is_first_token
           Sample.rsqrt Sample.get_optimizer
           [Sample.example "zzz" "a" 1 5] [Sample.example "a" "a" 1 5]
           Glove.PREDICT (Sample.params 2) Sample.vars).
  constructor; [|constructor].
  repeat split.
  - right. split; [|reflexivity].
    simpl. intros [H|[H|[H|[]]]]; discriminate.
  - left. reflexivity.
Defined.

(** ** The two vocabulary tables *)

Section VocabularyTables.

Import TF.

Lemma index_of_nth (key : string) (mapping : list string) (i : nat) :
  index_of key mapping = Some i -> nth_error mapping i = Some key.
Proof.
  revert i; induction mapping as [|t rest IH]; intros i; simpl.
  - discriminate.
  - destruct (String.eqb_spec key t) as [->|Hne].
    + intros [= <-]. reflexivity.
    + destruct (index_of key rest) as [j|]; simpl; [|discriminate].
      intros [= <-]. simpl. now apply IH.
Qed.

Lemma index_of_In (key : string) (mapping : list string) :
  In key mapping -> exists i, index_of key mapping = Some i.
Proof.
  induction mapping as [|t rest IH]; simpl; [tauto|].
  intros H. destruct (String.eqb_spec key t) as [->|Hne]; [now eexists|].
  destruct H as [H|H]; [congruence|].
  destruct (IH H) as [j ->]. now eexists.
Qed.

Lemma index_of_nodup (mapping : list string) :
  NoDup mapping ->
  forall i t, nth_error mapping i = Some t -> index_of t mapping = Some i.
Proof.
  induction 1 as [|t0 rest Hnot _ IH]; intros i t Hi.
  - destruct i; discriminate.
  - simpl. destruct i as [|i]; simpl in Hi.
    + injection Hi as ->. now rewrite String.eqb_refl.
    + destruct (String.eqb_spec t t0) as [->|Hne].
      * exfalso. apply Hnot. eapply nth_error_In, Hi.
      * now rewrite (IH i t Hi).
Qed.

End VocabularyTables.

(** X1.  The string table of [get_similarity] inverts the id table of
    [get_field_variables] on the vocabulary: the id table is built, a
    token of the vocabulary is mapped to an id, and that id back to the
    token. *)
Theorem token_id_token (mapping : list string) (token : string) :
  In token mapping ->
  exists table,
    TF.index_table_from_tensor mapping 0 = Ok table /\
    TF.index_to_string mapping (TF.lookup_one table token) = token.
Proof.
  intros Hin. exists (Spec.id_table mapping). split.
  - apply index_table_from_tensor_ok. intros ->. contradiction.
  - unfold TF.lookup_one, TF.index_to_string. simpl.
    destruct (index_of_In token mapping Hin) as [i E]. rewrite E.
    destruct (Z.ltb_spec (Z.of_nat i) 0); [lia|].
    rewrite Nat2Z.id. apply index_of_nth in E.
    now apply nth_error_nth.
Qed.

Lemma token_id_token_witness :
  exists table,
    TF.index_table_from_tensor Sample.vocab 0 = Ok table /\
    TF.index_to_string Sample.vocab (TF.lookup_one table "c") = "c"%string.
Proof.
  apply (token_id_token Sample.vocab "c"). simpl. tauto.
Defined.

(** X2.  Over a vocabulary without repeated tokens the id table inverts
    the string table: the id table is built, an id in [0, V) is mapped to
    its token, and that token back to the id. *)
Theorem id_token_id (mapping : list string) (id : Z) :
  NoDup mapping ->
  (0 <= id < Z.of_nat (length mapping))%Z ->
  exists table,
    TF.index_table_from_tensor mapping 0 = Ok table /\
    TF.lookup_one table (TF.index_to_string mapping id) = id.
Proof.
  intros Hnd Hid. exists (Spec.id_table mapping). split.
  - apply index_table_from_tensor_ok. intros ->. simpl in Hid. lia.
  - unfold TF.lookup_one, TF.index_to_string. simpl.
    destruct (Z.ltb_spec id 0); [lia|].
    assert (Hlt : (Z.to_nat id < length mapping)%nat) by lia.
    rewrite (index_of_nodup mapping Hnd (Z.to_nat id)
               (nth (Z.to_nat id) mapping TF.UNK)).
    + lia.
    + now apply nth_error_nth'.
Qed.

Lemma id_token_id_witness :
  exists table,
    TF.index_table_from_tensor Sample.vocab 0 = Ok table /\
    TF.lookup_one table (TF.index_to_string Sample.vocab 2) = 2%Z.
Proof.
  apply (id_token_id Sample.vocab 2).
  - repeat constructor; simpl; intuition discriminate.
  - simpl. lia.
Defined.

(** ** What the top-k selection returns *)

Section Selection.

Import TF.

Lemma insert_desc_perm (x : nat * Q) (l : list (nat * Q)) :
  Permutation (insert_desc x l) (x :: l).
Proof.
  induction l as [|y l IH]; simpl; [reflexivity|].
  destruct (Qle_bool (snd y) (snd x)); [reflexivity|].
  rewrite IH. apply perm_swap.
Qed.

Lemma sort_desc_perm (l : list (nat * Q)) : Permutation (sort_desc l) l.
Proof.
  induction l as [|x l IH]; simpl; [reflexivity|].
  rewrite insert_desc_perm. now constructor.
Qed.

Lemma enumerate_fst (row : list Q) (start : nat) :
  map fst (combine (seq start (length row)) row) = seq start (length row).
Proof.
  revert start; induction row as [|q row IH]; intros start; simpl;
    [reflexivity|].
  now rewrite IH.
Qed.

Lemma enumerate_In (row : list Q) (p : nat * Q) :
  In p (enumerate row) <-> nth_error row (fst p) = Some (snd p).
Proof.
  unfold enumerate. destruct p as [i s]. simpl.
  assert (G : forall start,
             In (i, s) (combine (seq start (length row)) row) <->
             (start <= i)%nat /\ nth_error row (i - start) = Some s).
  { induction row as [|q row IH]; intros start; simpl.
    - split; [tauto|]. intros [_ H]. destruct (i - start)%nat; discriminate.
    - rewrite IH. split.
      + intros [[= <- <-]|[Hle H]].
        * split; [lia|]. now rewrite Nat.sub_diag.
        * split; [lia|].
          replace (i - start)%nat with (S (i - S start)) by lia. exact H.
      + intros [Hle H]. destruct (Nat.eq_dec start i) as [->|Hne].
        * rewrite Nat.sub_diag in H. simpl in H. injection H as ->.
          now left.
        * right. split; [lia|].
          replace (i - start)%nat with (S (i - S start)) in H by lia.
          exact H. }
  rewrite G, Nat.sub_0_r. split; [tauto | intros H; split; [lia | exact H]].
Qed.

Lemma top_k_row_In (k : nat) (row : list Q) (p : nat * Q) :
  In p (top_k_row k row) -> nth_error row (fst p) = Some (snd p).
Proof.
  unfold top_k_row. intros H.
  apply enumerate_In, (Permutation_in _ (sort_desc_perm _)).
  rewrite <- (firstn_skipn k (sort_desc (enumerate row))).
  apply in_or_app. now left.
Qed.

Lemma NoDup_firstn_app {A : Type} (l1 l2 : list A) :
  NoDup (l1 ++ l2) -> NoDup l1.
Proof.
  induction l1 as [|x l1 IH]; simpl; intros H; [constructor|].
  inversion H as [|? ? Hx Hl]; subst. constructor; [|now apply IH].
  intros Hin. apply Hx, in_or_app. now left.
Qed.

Lemma top_k_row_NoDup (k : nat) (row : list Q) :
  NoDup (map fst (top_k_row k row)).
Proof.
  unfold top_k_row.
  assert (H : NoDup (map fst (sort_desc (enumerate row)))).
  { apply (Permutation_NoDup
             (Permutation_sym (Permutation_map fst (sort_desc_perm _)))).
    unfold enumerate. rewrite enumerate_fst. apply seq_NoDup. }
  rewrite <- (firstn_skipn k (sort_desc (enumerate row))), map_app in H.
  exact (NoDup_firstn_app _ _ H).
Qed.

Lemma sorted_app {A : Type} (R : A -> A -> Prop) (l1 l2 : list A) :
  StronglySorted R (l1 ++ l2) ->
  forall a b, In a l1 -> In b l2 -> R a b.
Proof.
  induction l1 as [|x l1 IH]; simpl; intros H a b Ha Hb; [tauto|].
  inversion H as [|? ? Hs Hx]; subst.
  destruct Ha as [<-|Ha].
  - rewrite Forall_forall in Hx. apply Hx, in_or_app. now right.
  - now apply IH.
Qed.

Lemma top_k_row_largest (k : nat) (row : list Q) (a : nat * Q) (j : nat)
    (s : Q) :
  In a (top_k_row k row) ->
  nth_error row j = Some s ->
  ~ In j (map fst (top_k_row k row)) ->
  s <= snd a.
Proof.
  unfold top_k_row. intros Ha Hj Hnot.
  pose proof (sort_desc_enumerate_sorted row 0) as Hs.
  fold (enumerate row) in Hs.
  rewrite <- (firstn_skipn k (sort_desc (enumerate row))) in Hs.
  assert (Hin : In (j, s) (sort_desc (enumerate row))).
  { apply (Permutation_in _ (Permutation_sym (sort_desc_perm _))).
    now apply enumerate_In. }
  rewrite <- (firstn_skipn k (sort_desc (enumerate row))) in Hin.
  apply in_app_or in Hin as [Hin|Hin].
  - exfalso. apply Hnot. now apply (in_map fst) in Hin.
  - apply (before_le a (j, s)). now apply (sorted_app _ _ _ Hs).
Qed.

End Selection.

Section SimilarityResults.

Import TF Glove.

Variable rsqrt : Q -> Q.

Lemma cosine_row_length (field_variables : FieldVariables) (row : list Q) :
  In row (More.cosine rsqrt field_variables) ->
  length row = length (fv_embeddings field_variables).
Proof.
  unfold More.cosine, matmul_transpose_b, l2_normalize. intros H.
  apply in_map_iff in H as (u & <- & _). now rewrite !length_map.
Qed.

Lemma query_result_selected (field_variables : FieldVariables) (k : Z)
    (fs : FieldSimilarity) (q : nat) (sims : list Q) (idxs : list Z)
    (strs : list string) :
  get_similarity rsqrt field_variables k = Ok fs ->
  More.query_result fs q sims idxs strs ->
  exists cos_row,
    nth_error (More.cosine rsqrt field_variables) q = Some cos_row /\
    let sel := top_k_row (Z.to_nat k) cos_row in
    sims = map snd sel /\
    idxs = map (fun p => Z.of_nat (fst p)) sel /\
    strs = map (index_to_string (mapping (fv_field field_variables))) idxs.
Proof.
  intros E (Hs & Hi & Ht).
  destruct (in_range_dec k (length (fv_embeddings field_variables)))
    as [Hk|Hk]; [|rewrite (get_similarity_raises rsqrt _ k Hk) in E;
                   discriminate].
  rewrite (get_similarity_ok rsqrt _ k Hk) in E. injection E as <-.
  simpl in Hs, Hi, Ht. unfold Spec.selected in Hs, Hi, Ht.
  fold (More.cosine rsqrt field_variables) in Hs, Hi, Ht.
  rewrite !nth_error_map in Hs. rewrite !nth_error_map in Hi.
  rewrite !nth_error_map in Ht.
  destruct (nth_error (More.cosine rsqrt field_variables) q) as [row|];
    simpl in *; [|discriminate].
  exists row. split; [reflexivity|]. simpl.
  injection Hs as <-. injection Hi as <-. injection Ht as <-.
  repeat split.
Qed.

Lemma returned_ids_in_range
    (field_variables : FieldVariables) (k : Z) (fs : FieldSimilarity)
    (q : nat) (sims : list Q) (idxs : list Z) (strs : list string) :
  get_similarity rsqrt field_variables k = Ok fs ->
  More.query_result fs q sims idxs strs ->
  Forall (fun id =>
            (0 <= id < Z.of_nat (length (fv_embeddings field_variables)))%Z)
         idxs /\
  strs = map (index_to_string (mapping (fv_field field_variables))) idxs.
Proof.
  intros E Hq.
  destruct (query_result_selected _ _ _ _ _ _ _ E Hq)
    as (row & Hrow & _ & -> & ->).
  split; [|reflexivity].
  pose proof (cosine_row_length _ _ (nth_error_In _ _ Hrow)) as Hlen.
  apply Forall_forall. intros id Hin.
  apply in_map_iff in Hin as (p & <- & Hp).
  apply top_k_row_In in Hp.
  assert (fst p < length row)%nat by (apply nth_error_Some; congruence).
  lia.
Qed.

Lemma NoDup_map_of_nat (l : list nat) :
  NoDup l -> NoDup (map Z.of_nat l).
Proof.
  induction 1 as [|x l Hx _ IH]; simpl; constructor; [|assumption].
  intros H. apply in_map_iff in H as (y & Hy & Hin).
  apply Nat2Z.inj in Hy. congruence.
Qed.

End SimilarityResults.

(** X3.  In every answer of a successful top-k request the ids are
    pairwise distinct and lie in [0, V), and the score returned with an id
    is the cosine similarity of the query and the vocabulary entry of that
    id. *)
Theorem top_k_ids_distinct_and_scored
    (rsqrt : Q -> Q) (field_variables : Glove.FieldVariables) (k : Z)
    (fs : Glove.FieldSimilarity) (q : nat) (sims : list Q) (idxs : list Z)
    (strs : list string) :
  Glove.get_similarity rsqrt field_variables k = Ok fs ->
  More.query_result fs q sims idxs strs ->
  exists cos_row,
    nth_error (More.cosine rsqrt field_variables) q = Some cos_row /\
    NoDup idxs /\
    Forall (fun id =>
              (0 <= id
               < Z.of_nat (length (Glove.fv_embeddings field_variables)))%Z)
           idxs /\
    Forall2 (fun id s => nth_error cos_row (Z.to_nat id) = Some s) idxs sims.
Proof.
  intros E Hq.
  destruct (query_result_selected rsqrt _ _ _ _ _ _ _ E Hq)
    as (row & Hrow & -> & -> & _).
  exists row. split; [exact Hrow|].
  pose proof (cosine_row_length rsqrt _ _ (nth_error_In _ _ Hrow)) as Hlen.
  split; [|split].
  - rewrite <- map_map. apply NoDup_map_of_nat, top_k_row_NoDup.
  - apply Forall_forall. intros id Hin.
    apply in_map_iff in Hin as (p & <- & Hp).
    apply top_k_row_In in Hp.
    assert (fst p < length row)%nat by (apply nth_error_Some; congruence).
    lia.
  - apply Forall2_map_map. intros p Hp. rewrite Nat2Z.id.
    now apply top_k_row_In in Hp.
Qed.

Lemma top_k_ids_distinct_and_scored_witness :
  exists cos_row,
    nth_error (More.cosine Sample.rsqrt More.sample_query) 0 = Some cos_row /\
    NoDup [2%Z; 1%Z] /\
    Forall (fun id =>
              (0 <= id
               < Z.of_nat (length (Glove.fv_embeddings More.sample_query)))%Z)
           [2%Z; 1%Z] /\
    Forall2 (fun id s => nth_error cos_row (Z.to_nat id) = Some s)
            [2%Z; 1%Z] [5185; 1375].
Proof.
  apply (top_k_ids_distinct_and_scored
           Sample.rsqrt More.sample_query 2
           {| Glove.fs_variables := More.sample_query;
              Glove.embed_norm := [[5; 10]];
              Glove.embeddings_norm := [[5; 10]; [75; 100]; [305; 366]];
              Glove.top_k_sim := [[5185; 1375]];
              Glove.top_k_idx := [[2%Z; 1%Z]];
              Glove.top_k_string := [["c"; "b"]]%string |}
           0 [5185; 1375] [2%Z; 1%Z] ["c"; "b"]%string).
  - vm_compute. reflexivity.
  - repeat split.
Defined.

(** X4.  A successful top-k request returns the largest similarities: the
    similarity of a vocabulary entry whose id is not among the returned ids
    of a query is at most every score returned for that query. *)
Theorem top_k_keeps_the_largest
    (rsqrt : Q -> Q) (field_variables : Glove.FieldVariables) (k : Z)
    (fs : Glove.FieldSimilarity) (q : nat) (sims : list Q) (idxs : list Z)
    (strs : list string) (cos_row : list Q) (j : nat) (s : Q) :
  Glove.get_similarity rsqrt field_variables k = Ok fs ->
  More.query_result fs q sims idxs strs ->
  nth_error (More.cosine rsqrt field_variables) q = Some cos_row ->
  nth_error cos_row j = Some s ->
  ~ In (Z.of_nat j) idxs ->
  Forall (fun returned => s <= returned) sims.
Proof.
  intros E Hq Hrow Hj Hnot.
  destruct (query_result_selected rsqrt _ _ _ _ _ _ _ E Hq)
    as (row & Hrow' & -> & -> & _).
  assert (row = cos_row) as -> by congruence.
  apply Forall_forall. intros r Hr.
  apply in_map_iff in Hr as (a & <- & Ha).
  apply (top_k_row_largest (Z.to_nat k) cos_row a j s Ha Hj).
  intros Hin. apply Hnot. rewrite <- map_map. now apply in_map.
Qed.

Lemma top_k_keeps_the_largest_witness :
  Forall (fun returned => 125 <= returned) [5185; 1375].
Proof.
  apply (top_k_keeps_the_largest
           Sample.rsqrt More.sample_query 2
           {| Glove.fs_variables := More.sample_query;
              Glove.embed_norm := [[5; 10]];
              Glove.embeddings_norm := [[5; 10]; [75; 100]; [305; 366]];
              Glove.top_k_sim := [[5185; 1375]];
              Glove.top_k_idx := [[2%Z; 1%Z]];
              Glove.top_k_string := [["c"; "b"]]%string |}
           0 [5185; 1375] [2%Z; 1%Z] ["c"; "b"]%string
           [125; 1375; 5185] 0 125).
  - vm_compute. reflexivity.
  - repeat split.
  - vm_compute. reflexivity.
  - reflexivity.
  - simpl. intros [H|[H|[]]]; discriminate.
Defined.

(** X5.  When the vocabulary has as many tokens as the embedding matrix
    has rows, every token returned by a successful top-k request is the
    vocabulary token at the returned id, and so a token of the vocabulary,
    never the placeholder of the string table. *)
Theorem top_k_tokens_from_vocabulary
    (rsqrt : Q -> Q) (field_variables : Glove.FieldVariables) (k : Z)
    (fs : Glove.FieldSimilarity) (q : nat) (sims : list Q) (idxs : list Z)
    (strs : list string) :
  length (Glove.mapping (Glove.fv_field field_variables))
  = length (Glove.fv_embeddings field_variables) ->
  Glove.get_similarity rsqrt field_variables k = Ok fs ->
  More.query_result fs q sims idxs strs ->
  Forall2 (fun id t =>
             nth_error (Glove.mapping (Glove.fv_field field_variables))
                       (Z.to_nat id) = Some t)
          idxs strs /\
  Forall (fun t => In t (Glove.mapping (Glove.fv_field field_variables)))
         strs.
Proof.
  intros Hlen E Hq.
  destruct (returned_ids_in_range rsqrt _ _ _ _ _ _ _ E Hq)
    as [Hr ->].
  assert (H : Forall2
                (fun id t =>
                   nth_error (Glove.mapping (Glove.fv_field field_variables))
                             (Z.to_nat id) = Some t)
                idxs
                (map (TF.index_to_string
                        (Glove.mapping (Glove.fv_field field_variables)))
                     idxs)).
  { apply Forall2_map_r. intros id Hin.
    rewrite Forall_forall in Hr. specialize (Hr id Hin).
    unfold TF.index_to_string. destruct (Z.ltb_spec id 0); [lia|].
    apply nth_error_nth'. lia. }
  split; [exact H|].
  apply Forall_forall. intros t Ht.
  apply in_map_iff in Ht as (id & <- & Hin).
  rewrite Forall_forall in Hr. specialize (Hr id Hin).
  unfold TF.index_to_string. destruct (Z.ltb_spec id 0); [lia|].
  apply nth_In. lia.
Qed.

Lemma top_k_tokens_from_vocabulary_witness :
  Forall2 (fun id t =>
             nth_error (Glove.mapping (Glove.fv_field More.sample_query))
                       (Z.to_nat id) = Some t)
          [2%Z; 1%Z] ["c"; "b"]%string /\
  Forall (fun t => In t (Glove.mapping (Glove.fv_field More.sample_query)))
         ["c"; "b"]%string.
Proof.
  apply (top_k_tokens_from_vocabulary
           Sample.rsqrt More.sample_query 2
           {| Glove.fs_variables := More.sample_query;
              Glove.embed_norm := [[5; 10]];
              Glove.embeddings_norm := [[5; 10]; [75; 100]; [305; 366]];
              Glove.top_k_sim := [[5185; 1375]];
              Glove.top_k_idx := [[2%Z; 1%Z]];
              Glove.top_k_string := [["c"; "b"]]%string |}
           0 [5185; 1375] [2%Z; 1%Z] ["c"; "b"]%string).
  - reflexivity.
  - vm_compute. reflexivity.
  - repeat split.
Defined.

(** ** The three modes *)

Section ModesMore.

Import TF Glove.

Variable rsqrt : Q -> Q.
Variable get_optimizer : string -> Q -> Optimizer.

Lemma same_tokens_ids (features features' : Features) (params : Params) :
  Forall2 More.same_tokens features features' ->
  Spec.ids_of (row_field params) features'
  = Spec.ids_of (row_field params) features /\
  Spec.ids_of (column_field params) features'
  = Spec.ids_of (column_field params) features.
Proof.
  unfold Spec.ids_of, lookup.
  induction 1 as [|e e' f f' [Hr Hc] _ [IHr IHc]]; simpl; [now split|].
  simpl in IHr, IHc. now rewrite Hr, Hc, IHr, IHc.
Qed.

Lemma same_tokens_mf_eq (features features' : Features) (params : Params)
    (vars : Variables) :
  Forall2 More.same_tokens features features' ->
  mf features' params vars = mf features params vars.
Proof.
  intros H. destruct (same_tokens_ids _ _ params H) as (Hr & Hc).
  unfold mf.
  now rewrite (get_field_variables_ids features features' _ _ Hr),
              (get_field_variables_ids features features' _ _ Hc).
Qed.

End ModesMore.

(** X6.  An invocation in PREDICT mode reads the row and column tokens
    only: two batches with the same tokens, whatever their weights and
    values, give the same result; and a specification returned in PREDICT
    mode has predictions, no loss and no training operation, so that the
    variables stay as they are. *)
Theorem predict_reads_tokens_only
    (rsqrt : Q -> Q) (get_optimizer : string -> Q -> Glove.Optimizer)
    (features features' : Glove.Features) (params : Glove.Params)
    (vars : Glove.Variables) :
  Forall2 More.same_tokens features features' ->
  Glove.model_fn rsqrt get_optimizer features' Glove.PREDICT params vars
  = Glove.model_fn rsqrt get_optimizer features Glove.PREDICT params vars /\
  (forall spec,
     Glove.model_fn rsqrt get_optimizer features Glove.PREDICT params vars
     = Ok spec ->
     (exists p, Glove.predictions spec = Some p) /\
     Glove.loss spec = None /\
     Glove.train_op spec = None /\
     Glove.run spec vars = vars).
Proof.
  intros H. split.
  - unfold Glove.model_fn. now rewrite (same_tokens_mf_eq _ _ params vars H).
  - intros spec. unfold Glove.model_fn.
    destruct (Glove.mf features params vars) as [[[rv cv] pv]|e]; simpl;
      [|discriminate].
    destruct (Glove.get_similarity rsqrt rv _) as [rs|]; simpl;
      [|discriminate].
    destruct (Glove.get_similarity rsqrt cv _) as [cs|]; simpl;
      [|discriminate].
    intros [= <-]. simpl. repeat split. now eexists.
Qed.

Lemma predict_reads_tokens_only_witness :
  Glove.model_fn Sample.rsqrt Sample.get_optimizer
                 [Sample.example "a" "b" 0 0] Glove.PREDICT
                 (Sample.params 2) Sample.vars
  = Glove.model_fn Sample.rsqrt Sample.get_optimizer
                   [Sample.example "a" "b" 1 5] Glove.PREDICT
                   (Sample.params 2) Sample.vars /\
  (forall spec,
     Glove.model_fn Sample.rsqrt Sample.get_optimizer
                    [Sample.example "a" "b" 1 5] Glove.PREDICT
                    (Sample.params 2) Sample.vars
     = Ok spec ->
     (exists p, Glove.predictions spec = Some p) /\
     Glove.loss spec = None /\
     Glove.train_op spec = None /\
     Glove.run spec Sample.vars = Sample.vars).
Proof.
  apply (predict_reads_tokens_only
           Sample.rsqrt Sample.get_optimizer
           [Sample.example "a" "b" 1 5] [Sample.example "a" "b" 0 0]
           (Sample.params 2) Sample.vars).
  repeat constructor.
Defined.

(** X7.  An invocation in TRAIN mode succeeds on every batch and reports
    the loss that an invocation in EVAL mode reports; its training
    operation is the [minimize] of the optimizer named in the parameters
    ("Adam" at learning rate 0.001 when they name none), applied to a
    function of the variables whose value at the current variables is the
    reported loss; the estimator's step replaces the variables by the
    result of that operation. *)
Theorem train_minimises_reported_loss
    (rsqrt : Q -> Q) (get_optimizer : string -> Q -> Glove.Optimizer)
    (features : Glove.Features) (params : Glove.Params)
    (vars : Glove.Variables) :
  Glove.mappings_row params <> [] ->
  Glove.mappings_column params <> [] ->
  Glove.well_shaped params vars ->
  exists spec l objective,
    Glove.invoke rsqrt get_optimizer features Glove.TRAIN params vars
    = Ok (spec,
          get_optimizer (Glove.get (Glove.optimizer params) "Adam"%string)
                        (Glove.get (Glove.learning_rate params) (1 # 1000))
                        objective vars) /\
    Glove.loss spec = Some l /\
    objective vars = Ok l /\
    Glove.train_op spec
    = Some (get_optimizer (Glove.get (Glove.optimizer params) "Adam"%string)
                          (Glove.get (Glove.learning_rate params) (1 # 1000))
                          objective) /\
    exists spec',
      Glove.model_fn rsqrt get_optimizer features Glove.EVAL params vars
      = Ok spec' /\
      Glove.loss spec' = Some l.
Proof.
  intros Hr Hc Hw.
  destruct (mf_ok features params vars Hr Hc Hw) as (rv & cv & E).
  unfold Glove.invoke, Glove.model_fn. rewrite E. simpl.
  eexists. eexists. exists (Glove.mse features params).
  split; [reflexivity|]. simpl. split; [reflexivity|].
  split; [unfold Glove.mse; rewrite E; reflexivity|].
  split; [reflexivity|].
  eexists. split; reflexivity.
Qed.

Lemma train_minimises_reported_loss_witness :
  exists spec l objective,
    Glove.invoke Sample.rsqrt Sample.get_optimizer
                 [Sample.example "a" "b" 1 5] Glove.TRAIN
                 (Sample.params 2) Sample.vars
    = Ok (spec,
          Sample.get_optimizer
            (Glove.get (Glove.optimizer (Sample.params 2)) "Adam"%string)
            (Glove.get (Glove.learning_rate (Sample.params 2)) (1 # 1000))
            objective Sample.vars) /\
    Glove.loss spec = Some l /\
    objective Sample.vars = Ok l /\
    Glove.train_op spec
    = Some (Sample.get_optimizer
              (Glove.get (Glove.optimizer (Sample.params 2)) "Adam"%string)
              (Glove.get (Glove.learning_rate (Sample.params 2)) (1 # 1000))
              objective) /\
    exists spec',
      Glove.model_fn Sample.rsqrt Sample.get_optimizer
                     [Sample.example "a" "b" 1 5] Glove.EVAL
                     (Sample.params 2) Sample.vars
      = Ok spec' /\
      Glove.loss spec' = Some l.
Proof.
  apply (train_minimises_reported_loss
           Sample.rsqrt Sample.get_optimizer [Sample.example "a" "b" 1 5]
           (Sample.params 2) Sample.vars).
  - discriminate.
  - discriminate.
  - repeat split; repeat constructor.
Defined.

(** X8.  When the parameters give no k, k is 100: an invocation in PREDICT
    mode then raises as soon as the vocabulary of the row field or of the
    column field has fewer than 100 tokens. *)
Theorem default_k_needs_hundred_tokens
    (rsqrt : Q -> Q) (get_optimizer : string -> Q -> Glove.Optimizer)
    (features : Glove.Features) (params : Glove.Params)
    (vars : Glove.Variables) :
  Glove.well_shaped params vars ->
  Glove.k params = None ->
  (length (Glove.mappings_row params) < 100
   \/ length (Glove.mappings_column params) < 100)%nat ->
  exists e,
    Glove.model_fn rsqrt get_optimizer features Glove.PREDICT params vars
    = Raise e.
Proof.
  intros [(Hre & _) (Hce & _)] Hk Hlt.
  apply model_fn_predict_raises. rewrite Hk. simpl.
  rewrite Hre, Hce. lia.
Qed.

Lemma default_k_needs_hundred_tokens_witness :
  exists e,
    Glove.model_fn Sample.rsqrt Sample.get_optimizer
                   [Sample.example "a" "b" 1 5] Glove.PREDICT
                   More.default_params Sample.vars
    = Raise e.
Proof.
  apply (default_k_needs_hundred_tokens
           Sample.rsqrt Sample.get_optimizer [Sample.example "a" "b" 1 5]
           More.default_params Sample.vars).
  - repeat split; repeat constructor.
  - reflexivity.
  - left. simpl. lia.
Defined.

(** ** More on the loss *)

Section LossMore.

Import TF.

Lemma weighted_sum_scaled (c : Q) (ps : list Q) :
  forall vs ws,
    sum (weighted_losses vs ps (map (Qmult c) ws))
    == c * sum (weighted_losses vs ps ws).
Proof.
  induction ps as [|p ps IH]; intros vs ws.
  - simpl. ring.
  - destruct vs as [|v vs]; [simpl; ring|].
    destruct ws as [|w ws]; [simpl; ring|].
    simpl map. rewrite !weighted_losses_cons. simpl sum. rewrite IH. ring.
Qed.

Lemma nonzero_scaled (c w : Q) : ~ c == 0 -> nonzero (c * w) = nonzero w.
Proof.
  intros Hc. unfold nonzero. f_equal.
  destruct (Qeq_bool w 0) eqn:Ew.
  - apply Qeq_bool_iff in Ew. apply Qeq_bool_iff. rewrite Ew. ring.
  - destruct (Qeq_bool (c * w) 0) eqn:Ecw; [|reflexivity].
    apply Qeq_bool_iff in Ecw.
    destruct (Qmult_integral _ _ Ecw) as [H|H]; [contradiction|].
    apply Qeq_bool_iff in H. congruence.
Qed.

Lemma num_present_scaled (c : Q) (ws : list Q) :
  ~ c == 0 -> num_present (map (Qmult c) ws) = num_present ws.
Proof.
  intros Hc. unfold num_present.
  assert (H : length (filter nonzero (map (Qmult c) ws))
              = length (filter nonzero ws)).
  { induction ws as [|w ws IH]; simpl; [reflexivity|].
    rewrite (nonzero_scaled c w Hc).
    destruct (nonzero w); simpl; now rewrite IH. }
  now rewrite H.
Qed.

End LossMore.

(** X9.  With non-negative weights the loss is never negative. *)
Theorem loss_nonnegative (labels predictions weights : list Q) :
  Forall (fun w => 0 <= w) weights ->
  0 <= TF.mean_squared_error labels predictions weights.
Proof.
  intros Hw. unfold TF.mean_squared_error. rewrite div_no_nan_div.
  apply Qmult_le_0_compat.
  - now apply weighted_sum_nonneg.
  - apply Qinv_le_0_compat, num_present_nonneg.
Qed.

Lemma loss_nonnegative_witness :
  0 <= TF.mean_squared_error [5; 1] [16; 1] [2; 0].
Proof.
  apply (loss_nonnegative [5; 1] [16; 1] [2; 0]).
  repeat constructor; discriminate.
Defined.

(** X10.  The loss is not normalised by the size of the weights:
    multiplying every weight of a batch by the same non-zero factor
    multiplies the loss by that factor. *)
Theorem loss_scales_with_weights
    (labels predictions weights : list Q) (c : Q) :
  ~ c == 0 ->
  TF.mean_squared_error labels predictions (map (Qmult c) weights)
  == c * TF.mean_squared_error labels predictions weights.
Proof.
  intros Hc. unfold TF.mean_squared_error.
  rewrite (num_present_scaled c weights Hc), !div_no_nan_div,
    weighted_sum_scaled.
  unfold Qdiv. ring.
Qed.

Lemma loss_scales_with_weights_witness :
  TF.mean_squared_error [5; 1] [16; 1] (map (Qmult 3) [2; 0])
  == 3 * TF.mean_squared_error [5; 1] [16; 1] [2; 0].
Proof.
  apply (loss_scales_with_weights [5; 1] [16; 1] [2; 0] 3). discriminate.
Defined.

(** ** Empty vocabularies *)

(** X12.  With an empty vocabulary for the row field or for the column
    field, [model_fn] raises on every batch, in every mode and whatever the
    variables are: the id table of the field cannot be built. *)
Theorem empty_vocabulary_raises
    (rsqrt : Q -> Q) (get_optimizer : string -> Q -> Glove.Optimizer)
    (features : Glove.Features) (mode : Glove.ModeKeys)
    (params : Glove.Params) (vars : Glove.Variables) :
  Glove.mappings_row params = [] \/ Glove.mappings_column params = [] ->
  exists e,
    Glove.model_fn rsqrt get_optimizer features mode params vars = Raise e.
Proof.
  intros Hempty.
  assert (Hmf : exists e, Glove.mf features params vars = Raise e).
  { unfold Glove.mf.
    destruct (Glove.get_field_variables features
                (Glove.row_field params) (Glove.row_store vars))
      as [rv|e] eqn:Er; simpl; [|now eexists].
    destruct Hempty as [Hm|Hm].
    - exfalso. unfold Glove.get_field_variables in Er. simpl in Er.
      rewrite Hm in Er. discriminate.
    - unfold Glove.get_field_variables. simpl. rewrite Hm. simpl.
      now eexists. }
  destruct Hmf as [e He]. exists e.
  unfold Glove.model_fn. now rewrite He.
Qed.

Lemma empty_vocabulary_raises_witness :
  exists e,
    Glove.model_fn Sample.rsqrt Sample.get_optimizer
                   [] Glove.EVAL More.empty_params More.empty_vars
    = Raise e.
Proof.
  apply (empty_vocabulary_raises
           Sample.rsqrt Sample.get_optimizer []
           Glove.EVAL More.empty_params More.empty_vars).
  left. reflexivity.
Defined.

(** ** Shapes and locality of the forward pass *)

Section ForwardMore.

Import TF Glove.

Lemma embed_at_length (field_dim d : nat) (s : FieldStore) (id : Z) :
  well_shaped_store field_dim d s ->
  (0 <= id < Z.of_nat field_dim)%Z ->
  length (Spec.embed_at s id) = d.
Proof.
  intros (He & Hd & _) Hid. unfold Spec.embed_at.
  rewrite Forall_forall in Hd. apply Hd, nth_In. lia.
Qed.

Lemma initial_variables_well_shaped (sqrt : Q -> Q)
    (rng : string -> nat -> Q) (params : Params) :
  well_shaped params (initial_variables sqrt rng params).
Proof.
  unfold well_shaped, well_shaped_store, initial_variables,
    Init.get_variable_2, Init.get_variable_1.
  simpl. rewrite !length_map, !length_seq.
  repeat split; apply Forall_forall; intros r Hr;
    apply in_map_iff in Hr as (i & <- & _);
    now rewrite length_map, length_seq.
Qed.

End ForwardMore.

(** X13.  The forward pass returns tensors of the shapes the source
    annotates: for a batch of B examples, B looked-up embeddings of length
    embedding_size and B biases for each field, and B predicted values. *)
Theorem forward_pass_shapes
    (features : Glove.Features) (params : Glove.Params)
    (vars : Glove.Variables) :
  Glove.mappings_row params <> [] ->
  Glove.mappings_column params <> [] ->
  Glove.well_shaped params vars ->
  let d := Glove.get (Glove.embedding_size params) 64%nat in
  let shaped fv :=
    length (Glove.fv_embed fv) = length features /\
    Forall (fun row => length row = d) (Glove.fv_embed fv) /\
    length (Glove.fv_bias fv) = length features in
  exists row_id_variables column_id_variables predicted_value,
    Glove.mf features params vars
    = Ok (row_id_variables, column_id_variables, predicted_value) /\
    shaped row_id_variables /\
    shaped column_id_variables /\
    length predicted_value = length features.
Proof.
  intros Hr Hc Hw d shaped.
  destruct (mf_ok features params vars Hr Hc Hw) as (rv & cv & E).
  exists rv, cv. eexists. split; [exact E|].
  unfold Glove.mf in E. destruct Hw as [Hwr Hwc].
  pose proof Hwr as (Hre & _ & Hrb). pose proof Hwc as (Hce & _ & Hcb).
  rewrite (get_field_variables_ok features (Glove.row_field params))
    in E by assumption.
  rewrite (get_field_variables_ok features (Glove.column_field params))
    in E by assumption.
  simpl in E. injection E as <- <- _.
  unfold shaped; simpl. rewrite !length_map.
  repeat split; apply Forall_forall; intros row Hin;
    apply in_map_iff in Hin as (e & <- & _).
  - apply (embed_at_length _ _ _ _ Hwr). now apply to_id_range.
  - apply (embed_at_length _ _ _ _ Hwc). now apply to_id_range.
Qed.

Lemma forward_pass_shapes_witness :
  let d := Glove.get (Glove.embedding_size (Sample.params 2)) 64%nat in
  let shaped fv :=
    length (Glove.fv_embed fv) = length [Sample.example "a" "b" 1 5] /\
    Forall (fun row => length row = d) (Glove.fv_embed fv) /\
    length (Glove.fv_bias fv) = length [Sample.example "a" "b" 1 5] in
  exists row_id_variables column_id_variables predicted_value,
    Glove.mf [Sample.example "a" "b" 1 5] (Sample.params 2) Sample.vars
    = Ok (row_id_variables, column_id_variables, predicted_value) /\
    shaped row_id_variables /\
    shaped column_id_variables /\
    length predicted_value = length [Sample.example "a" "b" 1 5].
Proof.
  apply (forward_pass_shapes [Sample.example "a" "b" 1 5]
                             (Sample.params 2) Sample.vars).
  - discriminate.
  - discriminate.
  - repeat split; repeat constructor.
Defined.

(** X14.  The forward pass and the loss of a batch read the global bias
    and the embedding rows and biases of the ids of the batch only: two
    sets of variables that agree on these give the same predicted values
    and the same loss. *)
Theorem forward_pass_reads_addressed_rows_only
    (rsqrt : Q -> Q) (get_optimizer : string -> Q -> Glove.Optimizer)
    (features : Glove.Features) (params : Glove.Params)
    (vars vars' : Glove.Variables) :
  Glove.mappings_row params <> [] ->
  Glove.mappings_column params <> [] ->
  Glove.well_shaped params vars ->
  Glove.well_shaped params vars' ->
  More.agree_on params features vars vars' ->
  exists rv cv rv' cv' predicted_value spec spec',
    Glove.mf features params vars = Ok (rv, cv, predicted_value) /\
    Glove.mf features params vars' = Ok (rv', cv', predicted_value) /\
    Glove.model_fn rsqrt get_optimizer features Glove.EVAL params vars
    = Ok spec /\
    Glove.model_fn rsqrt get_optimizer features Glove.EVAL params vars'
    = Ok spec' /\
    Glove.loss spec' = Glove.loss spec.
Proof.
  intros Hr Hc Hw Hw' [Hg Ha].
  destruct (mf_ok features params vars Hr Hc Hw) as (rv & cv & E).
  destruct (mf_ok features params vars' Hr Hc Hw') as (rv' & cv' & E').
  assert (Hp : map (fun e =>
                 let r := Spec.to_id (Glove.mappings_row params)
                                     (Glove.row_token e) in
                 let c := Spec.to_id (Glove.mappings_column params)
                                     (Glove.column_token e) in
                 Glove.global_bias vars'
                 + (Spec.bias_at (Glove.row_store vars') r
                    + Spec.bias_at (Glove.column_store vars') c
                    + TF.sum (TF.map2 Qmult
                                (Spec.embed_at (Glove.row_store vars') r)
                                (Spec.embed_at (Glove.column_store vars') c))))
              features
            = map (fun e =>
                 let r := Spec.to_id (Glove.mappings_row params)
                                     (Glove.row_token e) in
                 let c := Spec.to_id (Glove.mappings_column params)
                                     (Glove.column_token e) in
                 Glove.global_bias vars
                 + (Spec.bias_at (Glove.row_store vars) r
                    + Spec.bias_at (Glove.column_store vars) c
                    + TF.sum (TF.map2 Qmult
                                (Spec.embed_at (Glove.row_store vars) r)
                                (Spec.embed_at (Glove.column_store vars) c))))
              features).
  { apply map_ext_in. intros e He. rewrite Forall_forall in Ha.
    destruct (Ha e He) as (H1 & H2 & H3 & H4). simpl in *.
    now rewrite Hg, H1, H2, H3, H4. }
  rewrite Hp in E'.
  exists rv, cv, rv', cv'. eexists.
  unfold Glove.model_fn. rewrite E, E'. simpl.
  do 2 eexists. repeat split.
Qed.

Lemma forward_pass_reads_addressed_rows_only_witness :
  exists rv cv rv' cv' predicted_value spec spec',
    Glove.mf [Sample.example "a" "b" 1 5] (Sample.params 2) Sample.vars
    = Ok (rv, cv, predicted_value) /\
    Glove.mf [Sample.example "a" "b" 1 5] (Sample.params 2) More.other_vars
    = Ok (rv', cv', predicted_value) /\
    Glove.model_fn Sample.rsqrt Sample.get_optimizer
                   [Sample.example "a" "b" 1 5] Glove.EVAL
                   (Sample.params 2) Sample.vars
    = Ok spec /\
    Glove.model_fn Sample.rsqrt Sample.get_optimizer
                   [Sample.example "a" "b" 1 5] Glove.EVAL
                   (Sample.params 2) More.other_vars
    = Ok spec' /\
    Glove.loss spec' = Glove.loss spec.
Proof.
  apply (forward_pass_reads_addressed_rows_only
           Sample.rsqrt Sample.get_optimizer [Sample.example "a" "b" 1 5]
           (Sample.params 2) Sample.vars More.other_vars).
  - discriminate.
  - discriminate.
  - repeat split; repeat constructor.
  - repeat split; repeat constructor.
  - split; [reflexivity|]. repeat constructor.
Defined.

(** X15.  On the variables as they are first created, over non-empty
    vocabularies, [model_fn] succeeds on every batch in EVAL and in TRAIN
    mode, and in PREDICT mode whenever k lies between 0 and the sizes of
    both vocabularies. *)
Theorem first_invocation_succeeds
    (rsqrt sqrt : Q -> Q) (rng : string -> nat -> Q)
    (get_optimizer : string -> Q -> Glove.Optimizer)
    (features : Glove.Features) (mode : Glove.ModeKeys)
    (params : Glove.Params) :
  Glove.mappings_row params <> [] ->
  Glove.mappings_column params <> [] ->
  (mode = Glove.PREDICT ->
   (0 <= Glove.get (Glove.k params) 100
    <= Z.of_nat (length (Glove.mappings_row params)))%Z /\
   (0 <= Glove.get (Glove.k params) 100
    <= Z.of_nat (length (Glove.mappings_column params)))%Z) ->
  exists spec,
    Glove.model_fn rsqrt get_optimizer features mode params
                   (Glove.initial_variables sqrt rng params)
    = Ok spec.
Proof.
  intros Hr Hc Hk.
  pose proof (initial_variables_well_shaped sqrt rng params) as Hw.
  remember (Glove.initial_variables sqrt rng params) as vars0 eqn:Hv.
  clear Hv.
  destruct (mf_ok features params _ Hr Hc Hw) as (rv & cv & E).
  unfold Glove.model_fn. rewrite E. simpl.
  destruct mode; [now eexists | now eexists |].
  destruct (Hk eq_refl) as [Hkr Hkc].
  unfold Glove.mf in E. destruct Hw as [(Hre & _ & Hrb) (Hce & _ & Hcb)].
  rewrite (get_field_variables_ok features (Glove.row_field params))
    in E by assumption.
  rewrite (get_field_variables_ok features (Glove.column_field params))
    in E by assumption.
  simpl in E. injection E as <- <-.
  rewrite (get_similarity_ok rsqrt)
    by (simpl Glove.fv_embeddings; rewrite Hre; exact Hkr).
  simpl.
  rewrite (get_similarity_ok rsqrt)
    by (simpl Glove.fv_embeddings; rewrite Hce; exact Hkc).
  simpl. now eexists.
Qed.

Lemma first_invocation_succeeds_witness :
  exists spec,
    Glove.model_fn Sample.rsqrt Sample.get_optimizer
                   [Sample.example "a" "b" 1 5] Glove.PREDICT
                   (Sample.params 2)
                   (Glove.initial_variables Sample.sqrt Sample.rng
                                            (Sample.params 2))
    = Ok spec.
Proof.
  apply (first_invocation_succeeds
           Sample.rsqrt Sample.sqrt Sample.rng Sample.get_optimizer
           [Sample.example "a" "b" 1 5] Glove.PREDICT (Sample.params 2)).
  - discriminate.
  - discriminate.
  - intros _. simpl. lia.
Defined.

(** ** Cosine similarities *)

Section Cosine.

Import TF Glove.

Variable rsqrt : Q -> Q.

Lemma dot_zero_l (u : list Q) :
  Forall (fun x => x == 0) u -> forall v, dot u v == 0.
Proof.
  unfold dot. induction 1 as [|x u Hx _ IH]; intros v; simpl;
    [reflexivity|].
  destruct v as [|y v]; simpl; [reflexivity|].
  rewrite IH, Hx. ring.
Qed.

Lemma l2_normalize_row_zero (u : list Q) :
  Forall (fun x => x == 0) u ->
  Forall (fun x => x == 0) (l2_normalize_row rsqrt u).
Proof.
  intros H. unfold l2_normalize_row. apply Forall_map.
  apply (Forall_impl _ (P := fun x => x == 0)); [|exact H].
  intros x Hx. rewrite Hx. ring.
Qed.

Lemma cosine_row (field_variables : FieldVariables) (q : nat)
    (cos_row : list Q) :
  nth_error (More.cosine rsqrt field_variables) q = Some cos_row ->
  exists u,
    nth_error (fv_embed field_variables) q = Some u /\
    cos_row
    = map (dot (l2_normalize_row rsqrt u))
          (map (l2_normalize_row rsqrt) (fv_embeddings field_variables)).
Proof.
  unfold More.cosine, matmul_transpose_b, l2_normalize.
  rewrite !nth_error_map.
  destruct (nth_error (fv_embed field_variables) q) as [u|]; simpl;
    [|discriminate].
  intros [= <-]. now exists u.
Qed.

Lemma sort_desc_constant (c : Q) (l : list (nat * Q)) :
  Forall (fun p => snd p == c) l -> sort_desc l = l.
Proof.
  induction 1 as [|x l Hx Hl IH]; simpl; [reflexivity|].
  rewrite IH. destruct Hl as [|y l' Hy _]; simpl; [reflexivity|].
  assert (E : Qle_bool (snd y) (snd x) = true)
    by (apply Qle_bool_iff; rewrite Hx, Hy; apply Qle_refl).
  now rewrite E.
Qed.

Lemma firstn_seq_le (n : nat) :
  forall start len, (n <= len)%nat ->
    firstn n (seq start len) = seq start n.
Proof.
  induction n as [|n IH]; intros start len H; [reflexivity|].
  destruct len as [|len]; [lia|]. simpl. rewrite IH by lia. reflexivity.
Qed.

Lemma top_k_row_constant (c : Q) (k : nat) (row : list Q) :
  Forall (fun s => s == c) row ->
  (k <= length row)%nat ->
  map fst (top_k_row k row) = seq 0 k /\
  Forall (fun s => s == c) (map snd (top_k_row k row)).
Proof.
  intros Hc Hk. unfold top_k_row.
  assert (Hall : Forall (fun p => snd p == c) (enumerate row)).
  { apply Forall_forall. intros [i s] Hin. simpl.
    apply in_combine_r in Hin. rewrite Forall_forall in Hc. now apply Hc. }
  rewrite (sort_desc_constant c _ Hall). split.
  - rewrite <- firstn_map. unfold enumerate. rewrite enumerate_fst.
    now apply firstn_seq_le.
  - apply Forall_map, Forall_forall. intros p Hp.
    rewrite Forall_forall in Hall. apply Hall.
    rewrite <- (firstn_skipn k (enumerate row)). apply in_or_app. now left.
Qed.

End Cosine.

(** X16.  A query whose embedding is zero gets the similarity 0 to every
    vocabulary entry, so that a successful top-k request answers it with
    the first k ids of the vocabulary, in ascending order, each with the
    score 0. *)
Theorem zero_embedding_query
    (rsqrt : Q -> Q) (field_variables : Glove.FieldVariables) (k : Z)
    (fs : Glove.FieldSimilarity) (q : nat) (sims : list Q) (idxs : list Z)
    (strs : list string) (u : list Q) :
  Glove.get_similarity rsqrt field_variables k = Ok fs ->
  More.query_result fs q sims idxs strs ->
  nth_error (Glove.fv_embed field_variables) q = Some u ->
  Forall (fun x => x == 0) u ->
  idxs = map Z.of_nat (seq 0 (Z.to_nat k)) /\
  Forall (fun s => s == 0) sims.
Proof.
  intros E Hq Hu Hz.
  destruct (query_result_selected rsqrt _ _ _ _ _ _ _ E Hq)
    as (row & Hrow & -> & -> & _).
  pose proof (cosine_row_length rsqrt _ _ (nth_error_In _ _ Hrow)) as Hlen.
  destruct (cosine_row rsqrt _ _ _ Hrow) as (u' & Hu' & Hr).
  assert (u' = u) as -> by congruence.
  assert (Hk : (Z.to_nat k <= length row)%nat).
  { destruct (in_range_dec k (length (Glove.fv_embeddings field_variables)))
      as [Hk|Hk]; [lia|].
    rewrite (get_similarity_raises rsqrt _ k Hk) in E. discriminate. }
  assert (Hall : Forall (fun s => s == 0) row).
  { rewrite Hr. apply Forall_map, Forall_forall. intros v _.
    apply dot_zero_l. now apply l2_normalize_row_zero. }
  destruct (top_k_row_constant 0 (Z.to_nat k) row Hall Hk) as [Hi Hs].
  split; [|exact Hs].
  rewrite <- map_map, Hi. reflexivity.
Qed.

Lemma zero_embedding_query_witness :
  [0%Z; 1%Z] = map Z.of_nat (seq 0 (Z.to_nat 2)) /\
  Forall (fun s => s == 0) [0 # 25; 0 # 25].
Proof.
  apply (zero_embedding_query
           More.exact_rsqrt More.zero_query 2
           {| Glove.fs_variables := More.zero_query;
              Glove.embed_norm := [[0; 0]];
              Glove.embeddings_norm :=
                [[3 # 5; 4 # 5]; [4 # 5; 3 # 5]; [1; 0]];
              Glove.top_k_sim := [[0 # 25; 0 # 25]];
              Glove.top_k_idx := [[0%Z; 1%Z]];
              Glove.top_k_string := [["a"; "b"]]%string |}
           0 [0 # 25; 0 # 25] [0%Z; 1%Z] ["a"; "b"]%string [0; 0]).
  - vm_compute. reflexivity.
  - repeat split.
  - reflexivity.
  - repeat constructor.
Defined.

Section CauchySchwarz.

Import TF Glove.

Lemma dot_cons (x y : Q) (u v : list Q) :
  dot (x :: u) (y :: v) = x * y + dot u v.
Proof. reflexivity. Qed.

Lemma dot_scaled (a b : Q) (u : list Q) :
  forall v,
    dot (map (fun t => t * a) u) (map (fun t => t * b) v)
    == a * b * dot u v.
Proof.
  induction u as [|x u IH]; intros v.
  - unfold dot. simpl. ring.
  - destruct v as [|y v]; [unfold dot; simpl; ring|].
    simpl map. rewrite !dot_cons, IH. ring.
Qed.

Lemma dot_self (u : list Q) : dot u u = sum (map (fun v => v * v) u).
Proof.
  unfold dot. induction u as [|x u IH]; simpl; [reflexivity|].
  now rewrite IH.
Qed.

Lemma sum_squares_nonneg (u : list Q) : 0 <= sum (map (fun v => v * v) u).
Proof.
  induction u as [|x u IH]; simpl; [lra|].
  pose proof (square_nonneg x). lra.
Qed.

Lemma cross_term (A B S x y : Q) :
  0 <= A -> 0 <= B -> S * S <= A * B ->
  2 * (x * y * S) <= x * x * B + y * y * A.
Proof.
  intros HA HB HS.
  destruct (Qlt_le_dec 0 A) as [Hpos|Hzero].
  - set (T := x * x * B + y * y * A - 2 * (x * y * S)).
    assert (HT : 0 <= A * T).
    { pose proof (square_nonneg (y * A - x * S)) as H1.
      pose proof (Qmult_le_0_compat _ _ (square_nonneg x)
                    (proj1 (Qle_minus_iff _ _) HS)) as H2.
      unfold T.
      setoid_replace (A * (x * x * B + y * y * A - 2 * (x * y * S)))
        with ((y * A - x * S) * (y * A - x * S)
              + x * x * (A * B + - (S * S))) by ring.
      lra. }
    destruct (Qlt_le_dec T 0) as [Hneg|Hge]; [|unfold T in Hge; lra].
    exfalso.
    assert (0 < A * (- T)) by (apply Qmult_lt_0_compat; lra).
    assert (A * (- T) == - (A * T)) by ring. lra.
  - assert (HA0 : A == 0) by lra.
    assert (HS0 : S * S <= 0) by (rewrite HA0 in HS; lra).
    assert (HSz : S == 0).
    { apply square_zero. pose proof (square_nonneg S). lra. }
    rewrite HSz, HA0.
    pose proof (Qmult_le_0_compat _ _ (square_nonneg x) HB). lra.
Qed.

Lemma cauchy_schwarz (u : list Q) :
  forall v,
    dot u v * dot u v
    <= sum (map (fun t => t * t) u) * sum (map (fun t => t * t) v).
Proof.
  induction u as [|x u IH]; intros v.
  - unfold dot. simpl. lra.
  - destruct v as [|y v].
    + unfold dot. simpl. lra.
    + rewrite dot_cons. simpl map. simpl sum.
      specialize (IH v).
      pose proof (sum_squares_nonneg u) as HA.
      pose proof (sum_squares_nonneg v) as HB.
      pose proof (cross_term _ _ (dot u v) x y HA HB IH) as HC.
      set (S := dot u v) in *.
      set (A := sum (map (fun t => t * t) u)) in *.
      set (B := sum (map (fun t => t * t) v)) in *.
      setoid_replace ((x * y + S) * (x * y + S))
        with (x * x * (y * y) + 2 * (x * y * S) + S * S) by ring.
      setoid_replace ((x * x + A) * (y * y + B))
        with (x * x * (y * y) + (x * x * B + y * y * A) + A * B) by ring.
      lra.
Qed.

Variable rsqrt : Q -> Q.

Lemma l2_normalize_row_scaled (u : list Q) :
  l2_normalize_row rsqrt u = map (fun t => t * More.inv_norm rsqrt u) u.
Proof. reflexivity. Qed.

Lemma cosine_self (u : list Q) :
  More.unit_after_normalising rsqrt u ->
  dot (l2_normalize_row rsqrt u) (l2_normalize_row rsqrt u) == 1.
Proof.
  intros [_ H]. rewrite l2_normalize_row_scaled, dot_scaled, dot_self.
  exact H.
Qed.

Lemma square_le_one (c : Q) : c * c <= 1 -> -1 <= c <= 1.
Proof.
  intros H. split.
  - destruct (Qlt_le_dec c (-1)) as [Hlt|Hge]; [|lra]. exfalso.
    assert (0 < (- c - 1) * (- c + 1)) by (apply Qmult_lt_0_compat; lra).
    assert ((- c - 1) * (- c + 1) == c * c - 1) by ring. lra.
  - destruct (Qlt_le_dec 1 c) as [Hlt|Hge]; [|lra]. exfalso.
    assert (0 < (c - 1) * (c + 1)) by (apply Qmult_lt_0_compat; lra).
    assert ((c - 1) * (c + 1) == c * c - 1) by ring. lra.
Qed.

Lemma cosine_bounded (u v : list Q) :
  More.unit_after_normalising rsqrt u ->
  More.unit_after_normalising rsqrt v ->
  -1 <= dot (l2_normalize_row rsqrt u) (l2_normalize_row rsqrt v) <= 1.
Proof.
  intros [Ha Hu] [Hb Hv].
  rewrite !l2_normalize_row_scaled.
  set (a := More.inv_norm rsqrt u) in *.
  set (b := More.inv_norm rsqrt v) in *.
  assert (E : dot (map (fun t => t * a) u) (map (fun t => t * b) v)
              == a * b * dot u v) by apply dot_scaled.
  pose proof (cauchy_schwarz u v) as HCS.
  set (S := dot u v) in *.
  set (A := sum (map (fun t => t * t) u)) in *.
  set (B := sum (map (fun t => t * t) v)) in *.
  assert (Hsq : (a * b * S) * (a * b * S) <= 1).
  { pose proof (Qmult_le_0_compat _ _ (square_nonneg (a * b))
                  (proj1 (Qle_minus_iff _ _) HCS)) as H.
    assert (H1 : a * b * (a * b) * (A * B + - (S * S))
                 == (a * a * A) * (b * b * B) - a * b * S * (a * b * S))
      by ring.
    rewrite H1, Hu, Hv in H. lra. }
  apply square_le_one in Hsq.
  split; rewrite E; tauto.
Qed.

End CauchySchwarz.

Section OwnToken.

Import TF Glove.

Lemma top_k_row_head (k : nat) (row : list Q) (j : nat) (s : Q) :
  (1 <= k)%nat ->
  nth_error row j = Some s ->
  exists a rest,
    top_k_row k row = a :: rest /\ (a = (j, s) \/ Spec.before a (j, s)).
Proof.
  intros Hk Hj. unfold top_k_row.
  pose proof (sort_desc_enumerate_sorted row 0) as Hs.
  fold (enumerate row) in Hs.
  assert (Hin : In (j, s) (sort_desc (enumerate row))).
  { apply (Permutation_in _ (Permutation_sym (sort_desc_perm _))).
    now apply enumerate_In. }
  destruct (sort_desc (enumerate row)) as [|a l]; [contradiction|].
  destruct k as [|k]; [lia|]. simpl. exists a. eexists.
  split; [reflexivity|].
  destruct Hin as [->|Hin]; [now left|]. right.
  inversion Hs as [|? ? _ Ha]; subst.
  rewrite Forall_forall in Ha. now apply Ha.
Qed.

End OwnToken.

(** X17.  When every row of the embedding matrix has length 1 after
    normalising, every score returned by a successful top-k request lies
    between -1 and 1. *)
Theorem similarity_scores_bounded
    (rsqrt : Q -> Q) (field_variables : Glove.FieldVariables) (k : Z)
    (fs : Glove.FieldSimilarity) (q : nat) (sims : list Q) (idxs : list Z)
    (strs : list string) (u : list Q) :
  Glove.get_similarity rsqrt field_variables k = Ok fs ->
  More.query_result fs q sims idxs strs ->
  nth_error (Glove.fv_embed field_variables) q = Some u ->
  More.unit_after_normalising rsqrt u ->
  Forall (More.unit_after_normalising rsqrt)
         (Glove.fv_embeddings field_variables) ->
  Forall (fun s => -1 <= s <= 1) sims.
Proof.
  intros E Hq Hu Hunit Hall.
  destruct (query_result_selected rsqrt _ _ _ _ _ _ _ E Hq)
    as (row & Hrow & -> & _ & _).
  destruct (cosine_row rsqrt _ _ _ Hrow) as (u' & Hu' & Hr).
  assert (u' = u) as -> by congruence.
  apply Forall_map, Forall_forall. intros a Ha.
  apply top_k_row_In, nth_error_In in Ha. rewrite Hr in Ha.
  apply in_map_iff in Ha as (v' & <- & Hv').
  apply in_map_iff in Hv' as (v & <- & Hv).
  rewrite Forall_forall in Hall.
  apply cosine_bounded; [assumption | now apply Hall].
Qed.

Lemma similarity_scores_bounded_witness :
  Forall (fun s => -1 <= s <= 1) [625 # 625; 600 # 625].
Proof.
  apply (similarity_scores_bounded
           More.exact_rsqrt More.unit_query 2
           {| Glove.fs_variables := More.unit_query;
              Glove.embed_norm := [[4 # 5; 3 # 5]];
              Glove.embeddings_norm :=
                [[3 # 5; 4 # 5]; [4 # 5; 3 # 5]; [1; 0]];
              Glove.top_k_sim := [[625 # 625; 600 # 625]];
              Glove.top_k_idx := [[1%Z; 0%Z]];
              Glove.top_k_string := [["b"; "a"]]%string |}
           0 [625 # 625; 600 # 625] [1%Z; 0%Z] ["b"; "a"]%string [4; 3]).
  - vm_compute. reflexivity.
  - repeat split.
  - reflexivity.
  - split; [discriminate | reflexivity].
  - repeat constructor; try discriminate; reflexivity.
Defined.

Lemma first_answer_of_stored_row
    (rsqrt : Q -> Q) (field_variables : Glove.FieldVariables) (k : Z)
    (fs : Glove.FieldSimilarity) (q : nat) (sims : list Q) (idxs : list Z)
    (strs : list string) (u : list Q) (j : nat) :
  Glove.get_similarity rsqrt field_variables k = Ok fs ->
  More.query_result fs q sims idxs strs ->
  (1 <= k)%Z ->
  nth_error (Glove.fv_embed field_variables) q = Some u ->
  nth_error (Glove.fv_embeddings field_variables) j = Some u ->
  Forall (More.unit_after_normalising rsqrt)
         (Glove.fv_embeddings field_variables) ->
  exists s id sims' idxs',
    sims = s :: sims' /\ idxs = id :: idxs' /\
    s == 1 /\ (0 <= id <= Z.of_nat j)%Z.
Proof.
  intros E Hq Hk Hu Hj Hall.
  pose proof (Forall_forall (More.unit_after_normalising rsqrt)
                (Glove.fv_embeddings field_variables)) as [Hall' _].
  specialize (Hall' Hall).
  assert (Hunit : More.unit_after_normalising rsqrt u)
    by (eapply Hall', nth_error_In, Hj).
  destruct (query_result_selected rsqrt _ _ _ _ _ _ _ E Hq)
    as (row & Hrow & -> & -> & _).
  destruct (cosine_row rsqrt _ _ _ Hrow) as (u' & Hu' & Hr).
  assert (u' = u) as -> by congruence.
  set (own := TF.dot (Glove.l2_normalize_row rsqrt u)
                     (Glove.l2_normalize_row rsqrt u)).
  assert (Hown : nth_error row j = Some own).
  { rewrite Hr, !nth_error_map, Hj. reflexivity. }
  assert (Hone : own == 1) by now apply cosine_self.
  destruct (top_k_row_head (Z.to_nat k) row j own ltac:(lia) Hown)
    as (a & rest & Hsel & Hhead).
  rewrite Hsel. simpl. do 4 eexists. split; [reflexivity|].
  split; [reflexivity|].
  assert (Hle : snd a <= 1).
  { assert (Ha : In a (TF.top_k_row (Z.to_nat k) row))
      by (rewrite Hsel; now left).
    apply top_k_row_In, nth_error_In in Ha. rewrite Hr in Ha.
    apply in_map_iff in Ha as (v' & <- & Hv').
    apply in_map_iff in Hv' as (v & <- & Hv).
    apply cosine_bounded; [assumption | now apply Hall']. }
  destruct Hhead as [->|[Hlt|[Heq Hlt]]]; simpl in *.
  - split; [exact Hone | lia].
  - lra.
  - split; [lra | lia].
Qed.

(** X18.  When every row of the embedding matrix has length 1 after
    normalising and k is at least 1, a query that is row j of the matrix is
    answered first with the score 1, and the id returned first is j or a
    smaller id (one whose embedding points the same way). *)
Theorem own_token_first
    (rsqrt : Q -> Q) (field_variables : Glove.FieldVariables) (k : Z)
    (fs : Glove.FieldSimilarity) (q : nat) (sims : list Q) (idxs : list Z)
    (strs : list string) (u : list Q) (j : nat) :
  Glove.get_similarity rsqrt field_variables k = Ok fs ->
  More.query_result fs q sims idxs strs ->
  (1 <= k)%Z ->
  nth_error (Glove.fv_embed field_variables) q = Some u ->
  nth_error (Glove.fv_embeddings field_variables) j = Some u ->
  Forall (More.unit_after_normalising rsqrt)
         (Glove.fv_embeddings field_variables) ->
  exists s id sims' idxs',
    sims = s :: sims' /\ idxs = id :: idxs' /\
    s == 1 /\ (0 <= id <= Z.of_nat j)%Z.
Proof.
  apply first_answer_of_stored_row.
Qed.

Lemma own_token_first_witness :
  exists s id sims' idxs',
    [625 # 625; 600 # 625] = s :: sims' /\ [1%Z; 0%Z] = id :: idxs' /\
    s == 1 /\ (0 <= id <= Z.of_nat 1)%Z.
Proof.
  apply (own_token_first
           More.exact_rsqrt More.unit_query 2
           {| Glove.fs_variables := More.unit_query;
              Glove.embed_norm := [[4 # 5; 3 # 5]];
              Glove.embeddings_norm :=
                [[3 # 5; 4 # 5]; [4 # 5; 3 # 5]; [1; 0]];
              Glove.top_k_sim := [[625 # 625; 600 # 625]];
              Glove.top_k_idx := [[1%Z; 0%Z]];
              Glove.top_k_string := [["b"; "a"]]%string |}
           0 [625 # 625; 600 # 625] [1%Z; 0%Z] ["b"; "a"]%string [4; 3] 1).
  - vm_compute. reflexivity.
  - repeat split.
  - lia.
  - reflexivity.
  - reflexivity.
  - repeat constructor; try discriminate; reflexivity.
Defined.

Section OwnTokenEndToEnd.

Import TF Glove.

Variable rsqrt : Q -> Q.

Lemma query_result_exists (field_variables : FieldVariables) (k : Z)
    (fs : FieldSimilarity) (q : nat) (u : list Q) :
  get_similarity rsqrt field_variables k = Ok fs ->
  nth_error (fv_embed field_variables) q = Some u ->
  exists sims idxs strs, More.query_result fs q sims idxs strs.
Proof.
  intros E Hu.
  destruct (in_range_dec k (length (fv_embeddings field_variables)))
    as [Hk|Hk]; [|rewrite (get_similarity_raises rsqrt _ k Hk) in E;
                   discriminate].
  rewrite (get_similarity_ok rsqrt _ k Hk) in E. injection E as <-.
  unfold More.query_result, Spec.selected, matmul_transpose_b, l2_normalize.
  simpl. rewrite !nth_error_map, Hu. simpl. now do 3 eexists.
Qed.

Lemma field_own_token_first (features : Features) (field : Field)
    (store : FieldStore) (fv : FieldVariables) (k : Z)
    (fs : FieldSimilarity) (q : nat) (e : Example) :
  mapping field <> [] ->
  length (embeddings store) = length (mapping field) ->
  length (biases store) = length (mapping field) ->
  Forall (More.unit_after_normalising rsqrt) (embeddings store) ->
  (1 <= k)%Z ->
  get_field_variables features field store = Ok fv ->
  get_similarity rsqrt fv k = Ok fs ->
  nth_error features q = Some e ->
  exists s sims' t strs' id,
    nth_error (top_k_sim fs) q = Some (s :: sims') /\
    nth_error (top_k_string fs) q = Some (t :: strs') /\
    s == 1 /\
    (0 <= id <= Spec.to_id (mapping field) (column field e))%Z /\
    t = index_to_string (mapping field) id.
Proof.
  intros Hne He Hb Hall Hk Hfv Hfs Hq.
  rewrite (get_field_variables_ok features field store Hne He Hb) in Hfv.
  injection Hfv as <-.
  set (fv := {| fv_field := field; fv_embeddings := embeddings store;
                fv_biases := biases store;
                fv_embed := _; fv_bias := _ |}) in *.
  set (id := Spec.to_id (mapping field) (column field e)).
  pose proof (to_id_range (mapping field) (column field e) Hne) as Hid.
  fold id in Hid.
  assert (Hu : nth_error (fv_embed fv) q = Some (Spec.embed_at store id)).
  { unfold fv. simpl. rewrite nth_error_map, Hq. reflexivity. }
  assert (Hj : nth_error (fv_embeddings fv) (Z.to_nat id)
               = Some (Spec.embed_at store id)).
  { unfold fv, Spec.embed_at. simpl. apply nth_error_nth'. lia. }
  destruct (query_result_exists fv k fs q _ Hfs Hu)
    as (sims & idxs & strs & Hres).
  destruct (first_answer_of_stored_row rsqrt fv k fs q sims idxs strs
              _ (Z.to_nat id) Hfs Hres Hk Hu Hj Hall)
    as (s & i & sims' & idxs' & -> & -> & Hs & Hi).
  destruct (returned_ids_in_range rsqrt fv k fs q _ _ _ Hfs Hres)
    as [_ ->].
  destruct Hres as (H1 & _ & H3). simpl in H3.
  exists s, sims'. do 2 eexists. exists i.
  repeat split; try eassumption; lia.
Qed.

End OwnTokenEndToEnd.

(** X19.  When every row of both embedding matrices has length 1 after
    normalising and k is at least 1, an invocation in PREDICT mode answers
    every example of the batch, for its row token and for its column
    token, first with the score 1 and with the token of the example or a
    token of a smaller id. *)
Theorem predict_own_token_first
    (rsqrt : Q -> Q) (get_optimizer : string -> Q -> Glove.Optimizer)
    (features : Glove.Features) (params : Glove.Params)
    (vars : Glove.Variables) (spec : Glove.EstimatorSpec)
    (p : Glove.Predictions) (q : nat) (e : Glove.Example) :
  Glove.mappings_row params <> [] ->
  Glove.mappings_column params <> [] ->
  Glove.well_shaped params vars ->
  Forall (More.unit_after_normalising rsqrt)
         (Glove.embeddings (Glove.row_store vars)) ->
  Forall (More.unit_after_normalising rsqrt)
         (Glove.embeddings (Glove.column_store vars)) ->
  (1 <= Glove.get (Glove.k params) 100)%Z ->
  Glove.model_fn rsqrt get_optimizer features Glove.PREDICT params vars
  = Ok spec ->
  Glove.predictions spec = Some p ->
  nth_error features q = Some e ->
  (exists s sims' t strs' id,
     nth_error (Glove.top_k_row_similarity p) q = Some (s :: sims') /\
     nth_error (Glove.top_k_row_string p) q = Some (t :: strs') /\
     s == 1 /\
     (0 <= id
      <= Spec.to_id (Glove.mappings_row params) (Glove.row_token e))%Z /\
     t = TF.index_to_string (Glove.mappings_row params) id) /\
  (exists s sims' t strs' id,
     nth_error (Glove.top_k_column_similarity p) q = Some (s :: sims') /\
     nth_error (Glove.top_k_column_string p) q = Some (t :: strs') /\
     s == 1 /\
     (0 <= id
      <= Spec.to_id (Glove.mappings_column params)
                    (Glove.column_token e))%Z /\
     t = TF.index_to_string (Glove.mappings_column params) id).
Proof.
  intros Hr Hc [(Hre & _ & Hrb) (Hce & _ & Hcb)] Hur Huc Hk H Hp Hq.
  unfold Glove.model_fn, Glove.mf in H.
  destruct (Glove.get_field_variables features (Glove.row_field params)
              (Glove.row_store vars)) as [rv|] eqn:Erv; simpl in H;
    [|discriminate].
  destruct (Glove.get_field_variables features (Glove.column_field params)
              (Glove.column_store vars)) as [cv|] eqn:Ecv; simpl in H;
    [|discriminate].
  destruct (Glove.get_similarity rsqrt rv _) as [rs|] eqn:Ers; simpl in H;
    [|discriminate].
  destruct (Glove.get_similarity rsqrt cv _) as [cs|] eqn:Ecs; simpl in H;
    [|discriminate].
  injection H as <-. simpl in Hp. injection Hp as <-. simpl.
  split.
  - apply (field_own_token_first rsqrt features (Glove.row_field params)
             (Glove.row_store vars) rv
             (Glove.get (Glove.k params) 100%Z) rs q e); assumption.
  - apply (field_own_token_first rsqrt features (Glove.column_field params)
             (Glove.column_store vars) cv
             (Glove.get (Glove.k params) 100%Z) cs q e); assumption.
Qed.

Lemma predict_own_token_first_witness :
  (exists s sims' t strs' id,
     nth_error [[625 # 625; 600 # 625]] 0 = Some (s :: sims') /\
     nth_error [["b"; "a"]]%string 0 = Some (t :: strs') /\
     s == 1 /\
     (0 <= id <= Spec.to_id Sample.vocab "b")%Z /\
     t = TF.index_to_string Sample.vocab id) /\
  (exists s sims' t strs' id,
     nth_error [[1; 20 # 25]] 0 = Some (s :: sims') /\
     nth_error [["c"; "b"]]%string 0 = Some (t :: strs') /\
     s == 1 /\
     (0 <= id <= Spec.to_id Sample.vocab "c")%Z /\
     t = TF.index_to_string Sample.vocab id).
Proof.
  apply (predict_own_token_first
           More.exact_rsqrt Sample.get_optimizer
           [Sample.example "b" "c" 1 5] (Sample.params 2) More.unit_vars
           {| Glove.spec_mode := Glove.PREDICT;
              Glove.predictions := Some
                {| Glove.row_embed := [[4; 3]];
                   Glove.row_bias := [0];
                   Glove.column_embed := [[1; 0]];
                   Glove.column_bias := [0];
                   Glove.embed_norm_product := [20 # 25];
                   Glove.top_k_row_similarity := [[625 # 625; 600 # 625]];
                   Glove.top_k_row_string := [["b"; "a"]]%string;
                   Glove.top_k_column_similarity := [[1; 20 # 25]];
                   Glove.top_k_column_string := [["c"; "b"]]%string |};
              Glove.loss := None;
              Glove.train_op := None |}
           {| Glove.row_embed := [[4; 3]];
              Glove.row_bias := [0];
              Glove.column_embed := [[1; 0]];
              Glove.column_bias := [0];
              Glove.embed_norm_product := [20 # 25];
              Glove.top_k_row_similarity := [[625 # 625; 600 # 625]];
              Glove.top_k_row_string := [["b"; "a"]]%string;
              Glove.top_k_column_similarity := [[1; 20 # 25]];
              Glove.top_k_column_string := [["c"; "b"]]%string |}
           0 (Sample.example "b" "c" 1 5)).
  - discriminate.
  - discriminate.
  - repeat split; repeat constructor.
  - repeat constructor; try discriminate; reflexivity.
  - repeat constructor; try discriminate; reflexivity.
  - simpl. lia.
  - vm_compute. reflexivity.
  - reflexivity.
  - reflexivity.
Defined.

(** X20.  The predicted value of an example does not depend on the other
    examples of its batch: the predicted values of two batches put
    together are the predicted values of the first followed by those of
    the second. *)
Theorem predictions_of_concatenated_batches
    (features1 features2 : Glove.Features) (params : Glove.Params)
    (vars : Glove.Variables) :
  Glove.mappings_row params <> [] ->
  Glove.mappings_column params <> [] ->
  Glove.well_shaped params vars ->
  exists rv1 cv1 pv1 rv2 cv2 pv2 rv cv,
    Glove.mf features1 params vars = Ok (rv1, cv1, pv1) /\
    Glove.mf features2 params vars = Ok (rv2, cv2, pv2) /\
    Glove.mf (features1 ++ features2) params vars
    = Ok (rv, cv, pv1 ++ pv2).
Proof.
  intros Hr Hc Hw.
  destruct (mf_ok features1 params vars Hr Hc Hw) as (rv1 & cv1 & E1).
  destruct (mf_ok features2 params vars Hr Hc Hw) as (rv2 & cv2 & E2).
  destruct (mf_ok (features1 ++ features2) params vars Hr Hc Hw)
    as (rv & cv & E).
  rewrite map_app in E.
  exists rv1, cv1. eexists. exists rv2, cv2. eexists. exists rv, cv.
  split; [exact E1|]. split; [exact E2|]. exact E.
Qed.

Lemma predictions_of_concatenated_batches_witness :
  exists rv1 cv1 pv1 rv2 cv2 pv2 rv cv,
    Glove.mf [Sample.example "a" "b" 1 5] (Sample.params 2) Sample.vars
    = Ok (rv1, cv1, pv1) /\
    Glove.mf [Sample.example "c" "zzz" 2 0] (Sample.params 2) Sample.vars
    = Ok (rv2, cv2, pv2) /\
    Glove.mf ([Sample.example "a" "b" 1 5]
              ++ [Sample.example "c" "zzz" 2 0])
             (Sample.params 2) Sample.vars
    = Ok (rv, cv, pv1 ++ pv2).
Proof.
  apply (predictions_of_concatenated_batches
           [Sample.example "a" "b" 1 5] [Sample.example "c" "zzz" 2 0]
           (Sample.params 2) Sample.vars).
  - discriminate.
  - discriminate.
  - repeat split; repeat constructor.
Defined.

(** ** The parameters of train_and_evaluate *)

(** X21.  With the parameters that [train_and_evaluate] builds from a
    non-empty vocabulary, an invocation in PREDICT mode succeeds exactly
    when k lies between 0 and the size of the vocabulary, and both fields
    give a token the same id. *)
Theorem train_and_evaluate_predicts_iff
    (rsqrt : Q -> Q) (get_optimizer : string -> Q -> Glove.Optimizer)
    (features : Glove.Features) (vocab : list string)
    (embedding_size : nat) (k : Z) (vars : Glove.Variables) :
  let params := More.train_and_evaluate_params vocab embedding_size k in
  vocab <> [] ->
  Glove.well_shaped params vars ->
  ((exists spec,
      Glove.model_fn rsqrt get_optimizer features Glove.PREDICT params vars
      = Ok spec)
   <-> (0 <= k <= Z.of_nat (length vocab))%Z) /\
  (forall token,
     Spec.to_id (Glove.mapping (Glove.row_field params)) token
     = Spec.to_id (Glove.mapping (Glove.column_field params)) token).
Proof.
  intros params Hne Hw. split; [|reflexivity].
  pose proof Hw as [(Hre & _ & Hrb) (Hce & _ & Hcb)].
  simpl in Hre, Hrb, Hce, Hcb. split.
  - intros [spec H].
    destruct (in_range_dec k (length vocab)) as [Hk|Hk]; [exact Hk|].
    exfalso.
    destruct (model_fn_predict_raises rsqrt get_optimizer features params
                vars) as [e He].
    + simpl. rewrite Hre. now left.
    + congruence.
  - intros Hk.
    destruct (mf_ok features params vars Hne Hne Hw) as (rv & cv & E).
    unfold Glove.model_fn. rewrite E. simpl.
    pose proof (mf_inv _ _ _ _ _ _ E) as [Er Ec].
    rewrite (get_similarity_ok rsqrt) by (rewrite Er, Hre; exact Hk).
    simpl.
    rewrite (get_similarity_ok rsqrt) by (rewrite Ec, Hce; exact Hk).
    simpl. now eexists.
Qed.

Lemma train_and_evaluate_predicts_iff_witness :
  let params := More.train_and_evaluate_params Sample.vocab 2 100 in
  ((exists spec,
      Glove.model_fn Sample.rsqrt Sample.get_optimizer
                     [Sample.example "a" "b" 1 5] Glove.PREDICT params
                     Sample.vars
      = Ok spec)
   <-> (0 <= 100 <= Z.of_nat (length Sample.vocab))%Z) /\
  (forall token,
     Spec.to_id (Glove.mapping (Glove.row_field params)) token
     = Spec.to_id (Glove.mapping (Glove.column_field params)) token).
Proof.
  apply (train_and_evaluate_predicts_iff
           Sample.rsqrt Sample.get_optimizer [Sample.example "a" "b" 1 5]
           Sample.vocab 2 100 Sample.vars).
  - discriminate.
  - repeat split; repeat constructor.
Defined.
